(** * sqlite-ts: the binary decoding pipeline of the database file parser

    A shallow embedding of [src/app/DatabaseFileParser/helpers.ts] and
    [src/app/DatabaseFileParser/DatabaseFileParser.ts], followed by the
    properties of the decoding pipeline: varint decoding, serial types,
    record payloads, the file header, the b-tree page header, the cell
    pointer array and the orchestrating [parse]. *)

From Stdlib Require Import ZArith List Lia Bool String Ascii.
From Stdlib.Strings Require Import Byte.
From Stdlib Require Import DecimalString.
Import ListNotations.
Local Open Scope Z_scope.

(** ** JavaScript values the parser computes with *)

(** A byte of a [Uint8Array] or [Buffer], read as a number in [0, 255]. *)
Definition u8 (b : byte) : Z := Z.of_N (Byte.to_N b).

(** The byte holding the low eight bits of a number. *)
Definition byte_of_Z (z : Z) : byte :=
  match Byte.of_N (Z.to_N (z mod 256)) with
  | Some b => b
  | None => x00
  end.

(** [ToInt32]: JavaScript's bitwise operators work on 32-bit two's
    complement integers and wrap around. *)
Definition toInt32 (z : Z) : Z := (z + 2 ^ 31) mod 2 ^ 32 - 2 ^ 31.

(** [a & b] *)
Definition js_and (a b : Z) : Z := toInt32 (Z.land (toInt32 a) (toInt32 b)).

(** [a | b] *)
Definition js_or (a b : Z) : Z := toInt32 (Z.lor (toInt32 a) (toInt32 b)).

(** [a << n]: only the low five bits of the shift count are used. *)
Definition js_shl (a n : Z) : Z := toInt32 (Z.shiftl (toInt32 a) (Z.land n 31)).

(** [buffer.length] *)
Definition byteLength (buffer : list byte) : Z := Z.of_nat (List.length buffer).

(** [buffer[index]] for an index inside the array. *)
Definition byteAt (buffer : list byte) (index : Z) : Z :=
  u8 (nth (Z.to_nat index) buffer x00).

(** The index arithmetic of [TypedArray.prototype.subarray]: a negative
    index counts from the end, and every index is clamped to the array. *)
Definition clampIndex (len relative : Z) : Z :=
  if relative <? 0 then Z.max (len + relative) 0 else Z.min relative len.

(** [buffer.subarray(begin, end)] *)
Definition subarray (buffer : list byte) (begin end_ : Z) : list byte :=
  let len := byteLength buffer in
  let beginIndex := clampIndex len begin in
  let endIndex := clampIndex len end_ in
  firstn (Z.to_nat (endIndex - beginIndex)) (skipn (Z.to_nat beginIndex) buffer).

(** [buffer.slice(begin, end)] of a [Uint8Array]: a copy of the same
    range. *)
Definition slice (buffer : list byte) (begin end_ : Z) : list byte :=
  subarray buffer begin end_.

(** [buffer.subarray(begin)] *)
Definition subarrayFrom (buffer : list byte) (begin : Z) : list byte :=
  subarray buffer begin (byteLength buffer).

(** The one exception the parser can raise: the [RangeError] of
    [getCellPointerArray] and of the [Buffer] read methods. *)
Inductive exn : Type := RangeError.

(** The outcome of a call: a returned value or a thrown exception. *)
Inductive completion (A : Type) : Type :=
| Normal (a : A)
| Throw (e : exn).
Arguments Normal {A} a.
Arguments Throw {A} e.

Definition bind {A B : Type} (c : completion A) (k : A -> completion B) : completion B :=
  match c with
  | Normal a => k a
  | Throw e => Throw e
  end.

Notation "x <- c ;; k" := (bind c (fun x => k))
  (at level 61, c at next level, right associativity).

(** Big-endian unsigned integer made of the bytes of a list. *)
Fixpoint unsignedBE (acc : Z) (bytes : list byte) : Z :=
  match bytes with
  | [] => acc
  | b :: rest => unsignedBE (acc * 256 + u8 b) rest
  end.

(** [DataView.prototype.getUint8], [getInt8], [getUint16], [getUint32]
    (big-endian).  Every call of the parser reads at a constant offset
    inside a view of fixed length (100 or 12 bytes), or behind an explicit
    length check, so the reads are always in range. *)
Definition getUint8 (view : list byte) (byteOffset : Z) : Z := byteAt view byteOffset.

Definition getInt8 (view : list byte) (byteOffset : Z) : Z :=
  let v := byteAt view byteOffset in if v <? 128 then v else v - 256.

Definition getUint16 (view : list byte) (byteOffset : Z) : Z :=
  byteAt view byteOffset * 256 + byteAt view (byteOffset + 1).

Definition getUint32 (view : list byte) (byteOffset : Z) : Z :=
  ((byteAt view byteOffset * 256 + byteAt view (byteOffset + 1)) * 256
   + byteAt view (byteOffset + 2)) * 256 + byteAt view (byteOffset + 3).

(** [Buffer.prototype.readIntBE(offset, byteLength)], which is also
    [readInt8], [readInt16BE], [readInt32BE] and [readBigInt64BE] at the
    widths 1, 2, 4 and 8: a signed big-endian read that throws a
    [RangeError] when the buffer is too short. *)
Definition readIntBE (buffer : list byte) (offset width : Z) : completion Z :=
  if offset + width <=? byteLength buffer then
    let u := unsignedBE 0 (subarray buffer offset (offset + width)) in
    Normal (if u <? 2 ^ (8 * width - 1) then u else u - 2 ^ (8 * width))
  else Throw RangeError.

(** [n.toString()] of an integer (a number or a bigint). *)
Definition integerToString (n : Z) : string := NilZero.string_of_int (Z.to_int n).

Definition hexDigit (n : Z) : ascii :=
  nth (Z.to_nat n) (list_ascii_of_string "0123456789abcdef") "0"%char.

(** [buffer.toString("hex")] *)
Fixpoint hexSlice (buffer : list byte) : string :=
  match buffer with
  | [] => EmptyString
  | b :: rest => String (hexDigit (u8 b / 16)) (String (hexDigit (u8 b mod 16)) (hexSlice rest))
  end.

(** The two conversions of the platform that are not modelled bit by bit:
    [buffer.toString("utf-8")], known here on ASCII input only, and the
    decimal rendering of an IEEE double. *)
Class Platform : Type := {
  utf8Slice : list byte -> string;
  utf8Slice_ascii :
    forall bytes, forallb (fun b => u8 b <? 128) bytes = true ->
                  utf8Slice bytes = string_of_list_byte bytes;
  doubleToString : list byte -> string
}.

(** [buffer.readDoubleBE(0).toString()] *)
Definition readDoubleBE_toString `{Platform} (buffer : list byte) : completion string :=
  if 8 <=? byteLength buffer then Normal (doubleToString (subarray buffer 0 8))
  else Throw RangeError.

(** ** helpers.ts *)

Record VarintResult : Type := { value : Z; nextOffset : Z }.

(** The [while] loop of [readVarint]; [fuel] bounds the number of times the
    loop condition is evaluated.  The pair returned is [(result, index)]. *)
Fixpoint readVarint_while (fuel : nat) (buffer : list byte) (result index shift : Z) : Z * Z :=
  match fuel with
  | O => (result, index)
  | S fuel' =>
      if (index <? byteLength buffer) && (index <? 8) then
        let byte := byteAt buffer index in
        let result := js_or result (js_shl (js_and byte 0x7f) shift) in
        if byte <? 0x80 then (result, index)
        else readVarint_while fuel' buffer result (index + 1) (shift + 7)
      else (result, index)
  end.

(** [index] starts at 0 and the loop stops at 8, so nine evaluations of the
    condition are enough (lemma [readVarint_while_fuel]). *)
Definition readVarint (buffer : list byte) : VarintResult :=
  let '(result, index) := readVarint_while 9 buffer 0 0 0 in
  {| value := result; nextOffset := index + 1 |}.

Definition parseSerialTypeValue `{Platform}
  (buffer : list byte) (targetSerialType id : Z) : completion string :=
  if (targetSerialType >=? 13) && (Z.rem targetSerialType 2 =? 1) then
    Normal (utf8Slice buffer)
  else if (targetSerialType >=? 12) && (Z.rem targetSerialType 2 =? 0) then
    Normal (hexSlice buffer)
  else if targetSerialType =? 1 then
    v <- readIntBE buffer 0 1 ;; Normal (integerToString v)
  else if targetSerialType =? 2 then
    v <- readIntBE buffer 0 2 ;; Normal (integerToString v)
  else if targetSerialType =? 3 then
    v <- readIntBE buffer 0 3 ;; Normal (integerToString v)
  else if targetSerialType =? 4 then
    v <- readIntBE buffer 0 4 ;; Normal (integerToString v)
  else if targetSerialType =? 5 then
    v <- readIntBE buffer 0 6 ;; Normal (integerToString v)
  else if targetSerialType =? 6 then
    v <- readIntBE buffer 0 8 ;; Normal (integerToString v)
  else if targetSerialType =? 7 then
    readDoubleBE_toString buffer
  else if (targetSerialType =? 8) || (targetSerialType =? 9) then
    Normal "0"%string
  else
    Normal (integerToString id).

(** The divisions of the BLOB and TEXT cases are exact (the dividend is
    even), so the integer quotient is the JavaScript quotient. *)
Definition getSerialTypeSize (serialType : Z) : Z :=
  if serialType =? 0 then 0
  else if serialType =? 1 then 1
  else if serialType =? 2 then 2
  else if serialType =? 3 then 3
  else if serialType =? 4 then 4
  else if serialType =? 5 then 6
  else if serialType =? 6 then 8
  else if serialType =? 7 then 8
  else if (serialType =? 8) || (serialType =? 9) then 0
  else if (serialType >=? 12) && (Z.rem serialType 2 =? 0) then (serialType - 12) / 2
  else if (serialType >=? 13) && (Z.rem serialType 2 =? 1) then (serialType - 13) / 2
  else 0.

(** The state of the header-region loop of [parseCellPayload]. *)
Record HeaderLoop : Type := {
  serialTypes : list Z;
  offset : Z;
  headerRemainingBytes : Z
}.

(** One iteration of [while (headerRemainingBytes > 0)]. *)
Definition headerLoop_body (buffer : list byte) (s : HeaderLoop) : HeaderLoop :=
  let r := readVarint (subarrayFrom buffer (offset s)) in
  {| serialTypes := serialTypes s ++ [value r];
     offset := offset s + nextOffset r;
     headerRemainingBytes := headerRemainingBytes s - nextOffset r |}.

(** The header-region loop, run for at most [fuel] iterations. *)
Fixpoint headerLoop (fuel : nat) (buffer : list byte) (s : HeaderLoop) : HeaderLoop :=
  match fuel with
  | O => s
  | S fuel' =>
      if headerRemainingBytes s >? 0 then headerLoop fuel' buffer (headerLoop_body buffer s)
      else s
  end.

(** The [for] loop over the collected serial types. *)
Fixpoint valueLoop `{Platform}
  (buffer : list byte) (types : list Z) (offset rowId : Z) (data : list string)
  : completion (list string) :=
  match types with
  | [] => Normal data
  | serialType :: rest =>
      let columnSize := getSerialTypeSize serialType in
      v <- parseSerialTypeValue (subarray buffer offset (offset + columnSize)) serialType rowId ;;
      valueLoop buffer rest (offset + columnSize) rowId (data ++ [v])
  end.

(** The first statements of [parseCellPayload]: the header-size varint is
    read at [offset0], and the header-region loop is entered with no serial
    type, the offset behind that varint and
    [headerRemainingBytes = headerSize - headerSizeBytes]. *)
Definition headerLoop_init (buffer : list byte) (offset0 : Z) : HeaderLoop :=
  let r := readVarint (subarrayFrom buffer offset0) in
  let headerSize := value r in
  let headerSizeBytes := nextOffset r in
  {| serialTypes := [];
     offset := offset0 + headerSizeBytes;
     headerRemainingBytes := headerSize - headerSizeBytes |}.

(** [parseCellPayload] with the header-region loop bounded by [fuel]
    iterations; [None] when the loop has not finished by then. *)
Definition parseCellPayload_fuel `{Platform}
  (fuel : nat) (buffer : list byte) (offset0 rowId : Z) : option (completion (list string)) :=
  let s := headerLoop fuel buffer (headerLoop_init buffer offset0) in
  if headerRemainingBytes s >? 0 then None
  else Some (valueLoop buffer (serialTypes s) (offset s) rowId []).

(** Every iteration lowers [headerRemainingBytes] by at least one, so as
    many iterations as its initial value finish the loop (lemma
    [headerLoop_iterations]). *)
Definition parseCellPayload `{Platform}
  (buffer : list byte) (offset0 rowId : Z) : completion (list string) :=
  let s0 := headerLoop_init buffer offset0 in
  let s := headerLoop (Z.to_nat (headerRemainingBytes s0)) buffer s0 in
  valueLoop buffer (serialTypes s) (offset s) rowId [].

(** The default value of [parseCellPayload]'s [rowId] parameter. *)
Definition defaultRowId : Z := -99999.

Definition parseTableLeafCell `{Platform} (buffer : list byte) : completion (list string) :=
  let offset := 0 in
  let payloadSizeBytes := nextOffset (readVarint (subarrayFrom buffer offset)) in
  let offset := offset + payloadSizeBytes in
  let r := readVarint (subarrayFrom buffer offset) in
  let rowId := value r in
  let offset := offset + nextOffset r in
  parseCellPayload buffer offset rowId.

(** The two fields are [undefined] ([None]) when the record has fewer
    than two columns. *)
Record IndexLeafCell : Type := { indexedValue : option string; id : option string }.

Definition parseIndexLeafCell `{Platform} (buffer : list byte) : completion IndexLeafCell :=
  let offset := 0 in
  let payloadSizeBytes := nextOffset (readVarint (subarrayFrom buffer offset)) in
  let offset := offset + payloadSizeBytes in
  data <- parseCellPayload buffer offset defaultRowId ;;
  Normal {| indexedValue := nth_error data 0; id := nth_error data 1 |}.

(** ** DatabaseFileParser.ts *)

Record DatabaseInfo : Type := {
  pageSize : Z;
  pageCount : Z;
  numberOfTables : Z;
  (* an entry is [None] where the JavaScript array holds [undefined] *)
  tableNames : list (option string)
}.

(** The fields are named after the string keys of the interface. *)
Record DatabaseFileHeader : Type := {
  header_string : string;
  database_page_size : Z;
  file_format_write_version : Z;
  file_format_read_version : Z;
  reserved_space_at_end_of_each_page : Z;
  maximum_embedded_payload_fraction : Z;
  minimum_embedded_payload_fraction : Z;
  leaf_payload_fraction : Z;
  file_change_counter : Z;
  number_of_pages : Z;
  first_freeList_trunk_page : Z;
  total_freeList_pages : Z;
  schema_cookie : Z;
  schema_format_number : Z;
  default_page_cache_size : Z;
  largest_root_b_tree_page_number : Z;
  database_text_encoding : Z;
  user_version : Z;
  incremental_vacuum_mode : Z;
  application_ID : Z;
  reserved_for_expansion : list byte;
  version_valid_for_number : Z;
  sqlite_version_number : Z
}.

Record BTreePageType : Type := {
  interior_index_b_tree_page : Z;
  interior_table_b_tree_page : Z;
  leaf_index_b_tree_page : Z;
  leaf_table_b_tree_page : Z
}.

Definition B_TREE_PAGE_TYPE : BTreePageType := {|
  interior_index_b_tree_page := 0x02;
  interior_table_b_tree_page := 0x05;
  leaf_index_b_tree_page := 0x0a;
  leaf_table_b_tree_page := 0x0d
|}.

Record BTreePageHeaderInfo : Type := {
  number_of_tables : Z;
  b_tree_page_type : Z;
  start_of_first_freeBlock : Z;
  number_of_cells : Z;
  start_of_cell_content_area : Z;
  number_of_fragmented_free_bytes : Z;
  right_most_pointer : Z;
  headerSize : Z
}.

Inductive PageCellData : Type :=
| schemaType
| schemaName
| schemaTableName
| schemaRootPage
| schema.

(** The numeric value of an enum member, used as an array index. *)
Definition PageCellData_index (d : PageCellData) : nat :=
  match d with
  | schemaType => 0
  | schemaName => 1
  | schemaTableName => 2
  | schemaRootPage => 3
  | schema => 4
  end%nat.

Definition maxByteSize : Z := 100.

(** The file behind the [FileHandle]: its bytes. *)
Definition FileHandle : Type := list byte.

(** [getBufferFromOffset]: a zero-filled [Uint8Array] of [bufferSize]
    bytes, over which [fileHandle.read] copies the bytes the file has
    from [offset] on; where the file ends early the zeros stay. *)
Definition getBufferFromOffset (fileHandle : FileHandle) (bufferSize offset : Z) : list byte :=
  let data := firstn (Z.to_nat bufferSize) (skipn (Z.to_nat offset) fileHandle) in
  data ++ repeat x00 (Z.to_nat bufferSize - List.length data).

(** [String.fromCharCode(...bytes)]: one character per byte. *)
Definition fromCharCode (bytes : list byte) : string := string_of_list_byte bytes.

Definition parseDatabaseFileHeader (fileHandle : FileHandle) : DatabaseFileHeader :=
  let databaseFileHeaderBuffer := getBufferFromOffset fileHandle maxByteSize 0 in
  let databaseFileHeaderData := databaseFileHeaderBuffer in
  {| header_string := fromCharCode (slice databaseFileHeaderBuffer 0 16);
     database_page_size := getUint16 databaseFileHeaderData 16;
     file_format_write_version := getUint8 databaseFileHeaderData 18;
     file_format_read_version := getUint8 databaseFileHeaderData 19;
     reserved_space_at_end_of_each_page := getUint8 databaseFileHeaderData 20;
     maximum_embedded_payload_fraction := getUint8 databaseFileHeaderData 21;
     minimum_embedded_payload_fraction := getUint8 databaseFileHeaderData 22;
     leaf_payload_fraction := getUint8 databaseFileHeaderData 23;
     file_change_counter := getUint32 databaseFileHeaderData 24;
     number_of_pages := getUint32 databaseFileHeaderData 28;
     first_freeList_trunk_page := getUint32 databaseFileHeaderData 32;
     total_freeList_pages := getUint32 databaseFileHeaderData 36;
     schema_cookie := getUint32 databaseFileHeaderData 40;
     schema_format_number := getUint32 databaseFileHeaderData 44;
     default_page_cache_size := getUint32 databaseFileHeaderData 48;
     largest_root_b_tree_page_number := getUint32 databaseFileHeaderData 52;
     database_text_encoding := getUint32 databaseFileHeaderData 56;
     user_version := getUint32 databaseFileHeaderData 60;
     incremental_vacuum_mode := getUint32 databaseFileHeaderData 64;
     application_ID := getUint32 databaseFileHeaderData 68;
     reserved_for_expansion := slice databaseFileHeaderBuffer 72 92;
     version_valid_for_number := getUint32 databaseFileHeaderData 92;
     sqlite_version_number := getUint32 databaseFileHeaderData 96 |}.

Definition parsePageHeader (fileHandle : FileHandle) (offset : Z) : BTreePageHeaderInfo :=
  let pageHeaderBuffer := getBufferFromOffset fileHandle 12 offset in
  let pageHeaderData := pageHeaderBuffer in
  let pagerHeaderSize :=
    if (getUint8 pageHeaderData 0 =? leaf_table_b_tree_page B_TREE_PAGE_TYPE)
       || (getInt8 pageHeaderData 8 =? leaf_index_b_tree_page B_TREE_PAGE_TYPE)
    then 8 else 12 in
  {| number_of_tables := getUint16 pageHeaderData 3;
     b_tree_page_type := getUint8 pageHeaderData 0;
     start_of_first_freeBlock := getUint16 pageHeaderData 1;
     number_of_cells := getUint16 pageHeaderData 3;
     start_of_cell_content_area := getUint16 pageHeaderData 5;
     number_of_fragmented_free_bytes := getUint8 pageHeaderData 7;
     right_most_pointer := getUint32 pageHeaderData 8 - 1;
     headerSize := pagerHeaderSize |}.

(** The [for (let c = 0; c < cellCount; c++)] loop of
    [getCellPointerArray]; [iterations] is [cellCount - c]. *)
Fixpoint cellPointerLoop (iterations : nat) (pointerBuffer : list byte) (c : Z) (pointerArray : list Z)
  : completion (list Z) :=
  match iterations with
  | O => Normal pointerArray
  | S iterations' =>
      let cellOffset := c * 2 in
      if c * 2 + 2 <=? byteLength pointerBuffer then
        cellPointerLoop iterations' pointerBuffer (c + 1)
          (pointerArray ++ [getUint16 pointerBuffer cellOffset])
      else Throw RangeError
  end.

Definition getCellPointerArray (fileHandle : FileHandle) (offset : Z) : completion (list Z) :=
  let h := parsePageHeader fileHandle offset in
  let cellCount := number_of_cells h in
  let pointerBuffer := getBufferFromOffset fileHandle (cellCount * 2) (offset + headerSize h) in
  cellPointerLoop (Z.to_nat cellCount) pointerBuffer 0 [].

(** The instance fields of the class once [parse] has assigned them. *)
Record DatabaseFileParser : Type := {
  databaseFileHeader : DatabaseFileHeader;
  databasePageHeader : BTreePageHeaderInfo;
  fileHandle : FileHandle;
  cellPointersArray : list Z;
  pageBuffer : list byte
}.

Definition getPageSize (this : DatabaseFileParser) : Z :=
  database_page_size (databaseFileHeader this).

Definition getPageCount (this : DatabaseFileParser) : Z :=
  number_of_pages (databaseFileHeader this).

Definition getNumberOfTables (this : DatabaseFileParser) : Z :=
  number_of_tables (databasePageHeader this).

(** The [forEach] of [getTableNames] over the cell pointers. *)
Fixpoint tableNamesLoop `{Platform}
  (pageBuffer : list byte) (cellPointers : list Z) (tableNames : list (option string))
  : completion (list (option string)) :=
  match cellPointers with
  | [] => Normal tableNames
  | cellPointer :: rest =>
      row <- parseTableLeafCell (subarrayFrom pageBuffer cellPointer) ;;
      tableNamesLoop pageBuffer rest
        (tableNames ++ [nth_error row (PageCellData_index schemaTableName)])
  end.

Definition getTableNames `{Platform} (this : DatabaseFileParser)
  : completion (list (option string)) :=
  tableNamesLoop (pageBuffer this) (cellPointersArray this) [].

(** The parser object once [parse] has assigned its fields: the file
    header, the header of the page at offset 100, the cell pointers read
    there, and the first [database page size] bytes of the file. *)
Definition parserWith (file : FileHandle) (pointers : list Z) : DatabaseFileParser :=
  {| databaseFileHeader := parseDatabaseFileHeader file;
     databasePageHeader := parsePageHeader file maxByteSize;
     fileHandle := file;
     cellPointersArray := pointers;
     pageBuffer :=
       getBufferFromOffset file (database_page_size (parseDatabaseFileHeader file)) 0 |}.

Definition parse `{Platform} (file : FileHandle) : completion DatabaseInfo :=
  pointers <- getCellPointerArray file maxByteSize ;;
  let this := parserWith file pointers in
  names <- getTableNames this ;;
  Normal {| pageSize := getPageSize this;
            pageCount := getPageCount this;
            numberOfTables := getNumberOfTables this;
            tableNames := names |}.

(** ** The canonical varint encoder *)

(** Modelled from the spec: the encoder of the varint round trip, which the
    repository does not contain.  It is the canonical SQLite encoding:
    groups of seven bits, the most significant group first, the high bit
    set on every byte but the last; a value of more than 56 bits takes nine
    bytes, the ninth holding eight bits. *)
Fixpoint encodeVarint_groups (fuel : nat) (v : Z) (acc : list byte) : list byte :=
  match fuel with
  | O => acc
  | S fuel' =>
      if v =? 0 then acc
      else encodeVarint_groups fuel' (v / 128) (byte_of_Z (Z.lor (v mod 128) 0x80) :: acc)
  end.

Fixpoint encodeVarint_full (groups : nat) (v : Z) (acc : list byte) : list byte :=
  match groups with
  | O => acc
  | S groups' =>
      encodeVarint_full groups' (v / 128) (byte_of_Z (Z.lor (v mod 128) 0x80) :: acc)
  end.

Definition encodeVarint (v : Z) : list byte :=
  if v <? 2 ^ 56 then encodeVarint_groups 7 (v / 128) [byte_of_Z (v mod 128)]
  else encodeVarint_full 8 (v / 256) [byte_of_Z (v mod 256)].

(** The same groups in the opposite order, the least significant group
    first: the byte order in which [readVarint] accumulates (theorem
    [readVarint_encodeVarintLE]). *)
Fixpoint encodeVarintLE_groups (fuel : nat) (v : Z) : list byte :=
  match fuel with
  | O => []
  | S fuel' =>
      if v <? 128 then [byte_of_Z v]
      else byte_of_Z (Z.lor (v mod 128) 0x80) :: encodeVarintLE_groups fuel' (v / 128)
  end.

Definition encodeVarintLE (v : Z) : list byte := encodeVarintLE_groups 9 v.

(** ** Synthetic database files *)

(** A 100-byte file header: the magic string, page size 4096 at offset 16,
    the version and payload-fraction bytes, change counter 1, page count 1
    at offset 28, text encoding 1 (UTF-8) at offset 56, zero elsewhere. *)
Definition fileHeader4096 : list byte :=
  list_byte_of_string "SQLite format 3" ++ [x00]
  ++ [x10; x00; x01; x01; x00; x40; x20; x20]
  ++ [x00; x00; x00; x01]
  ++ [x00; x00; x00; x01]
  ++ repeat x00 24
  ++ [x00; x00; x00; x01]
  ++ repeat x00 40.

(** A two-byte big-endian integer. *)
Definition u16BE (n : Z) : list byte := [byte_of_Z (n / 256); byte_of_Z n].

(** A one-page file of 4096 bytes: the file header, then at offset 100 the
    8-byte header of a b-tree page of the given type (no freeblock, one
    cell per pointer, the content area starting where [content] is
    stored), the cell pointers, and [content] at the end of the page. *)
Definition pageFile (pageType : byte) (pointers : list Z) (content : list byte) : FileHandle :=
  let start := 4096 - byteLength content in
  let cellCount := Z.of_nat (List.length pointers) in
  fileHeader4096
  ++ [pageType; x00; x00] ++ u16BE cellCount ++ u16BE start ++ [x00]
  ++ flat_map u16BE pointers
  ++ repeat x00 (Z.to_nat (start - 108 - 2 * cellCount))
  ++ content.

(** Such a page with two cells, stored one after the other at the end of
    the page and pointed to in that order. *)
Definition twoCellFile (pageType : byte) (cell1 cell2 : list byte) : FileHandle :=
  let start2 := 4096 - byteLength cell2 in
  let start1 := start2 - byteLength cell1 in
  pageFile pageType [start1; start2] (cell1 ++ cell2).

(** A table-leaf cell whose record has a single TEXT column: payload size,
    row id, header size 2, serial type [13 + 2 * length], the text. *)
Definition singleTextCell (rowId : byte) (text : string) : list byte :=
  let n := Z.of_nat (String.length text) in
  [byte_of_Z (2 + n); rowId; x02; byte_of_Z (13 + 2 * n)] ++ list_byte_of_string text.

(** A table-leaf cell holding a row of the schema table: the five columns
    type ("table"), name, tbl_name, rootpage (one byte) and sql. *)
Definition schemaCell (rowId : byte) (name : string) (rootPage : byte) (sql : string) : list byte :=
  let n := Z.of_nat (String.length name) in
  let m := Z.of_nat (String.length sql) in
  [byte_of_Z (6 + 5 + n + n + 1 + m); rowId;
   x06; x17; byte_of_Z (13 + 2 * n); byte_of_Z (13 + 2 * n); x01; byte_of_Z (13 + 2 * m)]
  ++ list_byte_of_string "table"
  ++ list_byte_of_string name ++ list_byte_of_string name
  ++ [rootPage]
  ++ list_byte_of_string sql.

(** The file of the end-to-end example: a leaf-table root page whose two
    cells each encode a single TEXT column, "t1" and "t2". *)
Definition singleColumnFile : FileHandle :=
  twoCellFile x0d (singleTextCell x01 "t1") (singleTextCell x02 "t2").

(** The same page with two rows of the schema table, for the tables "t1"
    and "t2". *)
Definition schemaFile : FileHandle :=
  twoCellFile x0d
    (schemaCell x01 "t1" x02 "CREATE TABLE t1(x)")
    (schemaCell x02 "t2" x03 "CREATE TABLE t2(y)").

(** A leaf-table root page without cells whose one cell pointer, 65535, is
    beyond the end of the page. *)
Definition danglingPointerFile : FileHandle := pageFile x0d [65535] [].

(** The page of [schemaFile] with a third cell pointer, 65535, between the
    pointers to its two cells. *)
Definition strayPointerFile : FileHandle :=
  pageFile x0d [4024; 65535; 4060]
    (schemaCell x01 "t1" x02 "CREATE TABLE t1(x)"
     ++ schemaCell x02 "t2" x03 "CREATE TABLE t2(y)").

(** A platform for executing the model: UTF-8 decoding as the identity on
    the bytes (exact on ASCII), and a fixed rendering of doubles.  It shows
    that the laws of [Platform] can be met. *)
Definition asciiPlatform : Platform := {|
  utf8Slice := string_of_list_byte;
  utf8Slice_ascii := fun bytes _ => eq_refl;
  doubleToString := fun _ => "NaN"%string
|}.

(** ** Encoders for the round trips *)

(** None of these is in the repository: they lay bytes out the way the
    parser reads them, so that decoding can be stated as a round trip. *)

(** Run a fallible function over a list from left to right; the first
    exception ends the run. *)
Fixpoint traverse {A B : Type} (f : A -> completion B) (l : list A) : completion (list B) :=
  match l with
  | [] => Normal []
  | a :: rest => b <- f a ;; bs <- traverse f rest ;; Normal (b :: bs)
  end.

(** A column of a record as it is stored: its serial type and its bytes. *)
Record Column : Type := { columnType : Z; columnBytes : list byte }.

(** The bytes of a record whose varints all fit one byte: the header size
    (itself included), one serial type per column, then the column bytes
    in the same order.  This is the layout [parseCellPayload] reads. *)
Definition encodeRecord (columns : list Column) : list byte :=
  [byte_of_Z (1 + Z.of_nat (List.length columns))]
  ++ map byte_of_Z (map columnType columns)
  ++ List.concat (map columnBytes columns).

(** What a stored column decodes to: [parseSerialTypeValue] on its own
    bytes, with the row id as fallback. *)
Definition decodeColumn `{Platform} (rowId : Z) (c : Column) : completion string :=
  parseSerialTypeValue (columnBytes c) (columnType c) rowId.

(** The serial type fits one varint byte, and the column has as many
    bytes as its serial type announces. *)
Definition wellFormedColumn (c : Column) : Prop :=
  0 <= columnType c < 128 /\ byteLength (columnBytes c) = getSerialTypeSize (columnType c).

(** A four-byte big-endian integer. *)
Definition u32BE (n : Z) : list byte :=
  [byte_of_Z (n / 16777216); byte_of_Z (n / 65536); byte_of_Z (n / 256); byte_of_Z n].

(** The 100 bytes of a file header, field by field at the offsets of the
    format: the inverse layout of [parseDatabaseFileHeader]. *)
Definition encodeDatabaseFileHeader (h : DatabaseFileHeader) : list byte :=
  list_byte_of_string (header_string h)
  ++ u16BE (database_page_size h)
  ++ [byte_of_Z (file_format_write_version h);
      byte_of_Z (file_format_read_version h);
      byte_of_Z (reserved_space_at_end_of_each_page h);
      byte_of_Z (maximum_embedded_payload_fraction h);
      byte_of_Z (minimum_embedded_payload_fraction h);
      byte_of_Z (leaf_payload_fraction h)]
  ++ u32BE (file_change_counter h)
  ++ u32BE (number_of_pages h)
  ++ u32BE (first_freeList_trunk_page h)
  ++ u32BE (total_freeList_pages h)
  ++ u32BE (schema_cookie h)
  ++ u32BE (schema_format_number h)
  ++ u32BE (default_page_cache_size h)
  ++ u32BE (largest_root_b_tree_page_number h)
  ++ u32BE (database_text_encoding h)
  ++ u32BE (user_version h)
  ++ u32BE (incremental_vacuum_mode h)
  ++ u32BE (application_ID h)
  ++ reserved_for_expansion h
  ++ u32BE (version_valid_for_number h)
  ++ u32BE (sqlite_version_number h).

(** Unsigned integers of one, two and four bytes. *)
Definition isU8 (n : Z) : Prop := 0 <= n < 256.
Definition isU16 (n : Z) : Prop := 0 <= n < 65536.
Definition isU32 (n : Z) : Prop := 0 <= n < 4294967296.

(** Every field of the header fits the bytes the format gives it. *)
Definition wellFormedHeader (h : DatabaseFileHeader) : Prop :=
  String.length (header_string h) = 16%nat
  /\ isU16 (database_page_size h)
  /\ isU8 (file_format_write_version h)
  /\ isU8 (file_format_read_version h)
  /\ isU8 (reserved_space_at_end_of_each_page h)
  /\ isU8 (maximum_embedded_payload_fraction h)
  /\ isU8 (minimum_embedded_payload_fraction h)
  /\ isU8 (leaf_payload_fraction h)
  /\ isU32 (file_change_counter h)
  /\ isU32 (number_of_pages h)
  /\ isU32 (first_freeList_trunk_page h)
  /\ isU32 (total_freeList_pages h)
  /\ isU32 (schema_cookie h)
  /\ isU32 (schema_format_number h)
  /\ isU32 (default_page_cache_size h)
  /\ isU32 (largest_root_b_tree_page_number h)
  /\ isU32 (database_text_encoding h)
  /\ isU32 (user_version h)
  /\ isU32 (incremental_vacuum_mode h)
  /\ isU32 (application_ID h)
  /\ List.length (reserved_for_expansion h) = 20%nat
  /\ isU32 (version_valid_for_number h)
  /\ isU32 (sqlite_version_number h).

(** The 12 bytes [parsePageHeader] reads: type, first freeblock, cell
    count, start of the cell content area, fragmented free bytes, and the
    four bytes of the right-most pointer (stored plus one). *)
Definition encodePageHeader (h : BTreePageHeaderInfo) : list byte :=
  [byte_of_Z (b_tree_page_type h)]
  ++ u16BE (start_of_first_freeBlock h)
  ++ u16BE (number_of_cells h)
  ++ u16BE (start_of_cell_content_area h)
  ++ [byte_of_Z (number_of_fragmented_free_bytes h)]
  ++ u32BE (right_most_pointer h + 1).

(** Every field fits its bytes, the two names of the two-byte field at
    offset 3 hold the same value, and the header size is the one
    [parsePageHeader] derives: 8 when the type is 13 or the byte at offset
    8 is 10, else 12. *)
Definition wellFormedPageHeader (h : BTreePageHeaderInfo) : Prop :=
  isU8 (b_tree_page_type h)
  /\ isU16 (start_of_first_freeBlock h)
  /\ isU16 (number_of_cells h)
  /\ isU16 (start_of_cell_content_area h)
  /\ isU8 (number_of_fragmented_free_bytes h)
  /\ isU32 (right_most_pointer h + 1)
  /\ number_of_tables h = number_of_cells h
  /\ headerSize h
     = if (b_tree_page_type h =? 13) || ((right_most_pointer h + 1) / 16777216 =? 10)
       then 8 else 12.

(** A table-leaf cell whose payload size and row id fit one varint byte
    each. *)
Record TableLeafCell : Type := {
  cellPayloadSize : byte;
  cellRowId : byte;
  cellColumns : list Column
}.

(** The bytes of such a cell: payload size, row id, record. *)
Definition encodeTableLeafCell (cell : TableLeafCell) : list byte :=
  cellPayloadSize cell :: cellRowId cell :: encodeRecord (cellColumns cell).

Definition wellFormedCell (cell : TableLeafCell) : Prop :=
  u8 (cellPayloadSize cell) < 128
  /\ u8 (cellRowId cell) < 128
  /\ Z.of_nat (List.length (cellColumns cell)) < 127
  /\ Forall wellFormedColumn (cellColumns cell).

(** The values of a cell: its columns decoded with its row id as fallback. *)
Definition decodeCell `{Platform} (cell : TableLeafCell) : completion (list string) :=
  traverse (decodeColumn (u8 (cellRowId cell))) (cellColumns cell).

(** The bytes of [cell] lie in the page buffer at offset [pointer]. *)
Definition cellAt (pageBuffer : list byte) (pointer : Z) (cell : TableLeafCell) : Prop :=
  exists pre rest,
    pageBuffer = pre ++ encodeTableLeafCell cell ++ rest /\ byteLength pre = pointer.

(** A TEXT column holding the bytes of a string. *)
Definition textColumn (text : string) : Column :=
  {| columnType := 13 + 2 * Z.of_nat (String.length text);
     columnBytes := list_byte_of_string text |}.

(** The cell whose bytes are [schemaCell]. *)
Definition schemaRow (rowId : byte) (name : string) (rootPage : byte) (sql : string)
  : TableLeafCell :=
  {| cellPayloadSize :=
       byte_of_Z (6 + 5 + Z.of_nat (String.length name) + Z.of_nat (String.length name) + 1
                  + Z.of_nat (String.length sql));
     cellRowId := rowId;
     cellColumns := [textColumn "table"; textColumn name; textColumn name;
                     {| columnType := 1; columnBytes := [rootPage] |}; textColumn sql] |}.

(** The cell whose bytes are [singleTextCell]. *)
Definition singleTextRow (rowId : byte) (text : string) : TableLeafCell :=
  {| cellPayloadSize := byte_of_Z (2 + Z.of_nat (String.length text));
     cellRowId := rowId;
     cellColumns := [textColumn text] |}.

(** A row of the schema table for an index: the five columns type
    ("index"), name, tbl_name, rootpage (one byte) and sql.  The name of
    the index and the name of its table differ. *)
Definition indexSchemaRow (rowId : byte) (name tableName : string) (rootPage : byte)
  (sql : string) : TableLeafCell :=
  {| cellPayloadSize :=
       byte_of_Z (6 + 5 + Z.of_nat (String.length name) + Z.of_nat (String.length tableName) + 1
                  + Z.of_nat (String.length sql));
     cellRowId := rowId;
     cellColumns := [textColumn "index"; textColumn name; textColumn tableName;
                     {| columnType := 1; columnBytes := [rootPage] |}; textColumn sql] |}.

(** A leaf-table root page with the schema rows of the indexes "i1" on
    "t1" and "i2" on "t2". *)
Definition indexSchemaFile : FileHandle :=
  twoCellFile x0d
    (encodeTableLeafCell (indexSchemaRow x01 "i1" "t1" x03 "CREATE INDEX i1 ON t1(x)"))
    (encodeTableLeafCell (indexSchemaRow x02 "i2" "t2" x05 "CREATE INDEX i2 ON t2(y)")).

(** * Properties *)

(** ** Numbers and bytes *)

(** Settle a comparison that arithmetic decides. *)
Ltac ltb_true a b :=
  replace (a <? b) with true by (symmetry; apply Z.ltb_lt; lia).

Ltac ltb_false a b :=
  replace (a <? b) with false by (symmetry; apply Z.ltb_ge; lia).

Lemma toInt32_range (z : Z) : - 2 ^ 31 <= toInt32 z < 2 ^ 31.
Proof.
  unfold toInt32.
  pose proof (Z.mod_pos_bound (z + 2 ^ 31) (2 ^ 32) ltac:(lia)). lia.
Qed.

Lemma toInt32_id (z : Z) : - 2 ^ 31 <= z < 2 ^ 31 -> toInt32 z = z.
Proof.
  intros Hz. unfold toInt32.
  rewrite Z.mod_small by lia. lia.
Qed.

Lemma u8_range (b : byte) : 0 <= u8 b < 256.
Proof.
  unfold u8. pose proof (Byte.to_N_bounded b). lia.
Qed.

Lemma byteAt_range (buffer : list byte) (index : Z) : 0 <= byteAt buffer index < 256.
Proof. apply u8_range. Qed.

Lemma byteLength_nonneg (buffer : list byte) : 0 <= byteLength buffer.
Proof. unfold byteLength. lia. Qed.

Lemma u8_byte_of_Z (z : Z) : u8 (byte_of_Z z) = z mod 256.
Proof.
  unfold u8, byte_of_Z.
  pose proof (Z.mod_pos_bound z 256 ltac:(lia)) as Hz.
  destruct (Byte.of_N (Z.to_N (z mod 256))) as [b|] eqn:Hb.
  - apply Byte.to_of_N in Hb. rewrite Hb. lia.
  - apply Byte.of_N_None_iff in Hb. lia.
Qed.

Lemma land_shifted_zero (a g s : Z) :
  0 <= s -> 0 <= a < 2 ^ s -> Z.land a (g * 2 ^ s) = 0.
Proof.
  intros Hs Ha. rewrite <- Z.shiftl_mul_pow2 by lia.
  apply Z.bits_inj'. intros n Hn.
  rewrite Z.land_spec, Z.bits_0.
  destruct (Z_lt_le_dec n s) as [Hlow|Hhigh].
  - rewrite Z.shiftl_spec_low by lia. apply andb_false_r.
  - destruct (Z.eq_dec a 0) as [->|Hnz]; [rewrite Z.bits_0; reflexivity|].
    rewrite (Z.bits_above_log2 a n); [reflexivity|lia|].
    apply Z.log2_lt_pow2; try lia.
    apply Z.lt_le_trans with (2 ^ s); [lia|].
    apply Z.pow_le_mono_r; lia.
Qed.

Lemma lor_shifted (a g s : Z) :
  0 <= s -> 0 <= a < 2 ^ s -> Z.lor a (g * 2 ^ s) = a + g * 2 ^ s.
Proof.
  intros Hs Ha.
  pose proof (land_shifted_zero a g s Hs Ha) as Hland.
  rewrite <- (Z.lxor_lor _ _ Hland). symmetry. apply Z.add_nocarry_lxor. exact Hland.
Qed.

Lemma byteAt_app (pre : list byte) (b : byte) (rest : list byte) :
  byteAt (pre ++ b :: rest) (byteLength pre) = u8 b.
Proof.
  unfold byteAt, byteLength. rewrite Nat2Z.id, nth_middle. reflexivity.
Qed.

Lemma byteLength_app (l1 l2 : list byte) :
  byteLength (l1 ++ l2) = byteLength l1 + byteLength l2.
Proof. unfold byteLength. rewrite length_app. lia. Qed.

Lemma byteLength_cons (b : byte) (l : list byte) :
  byteLength (b :: l) = 1 + byteLength l.
Proof. unfold byteLength. cbn [List.length]. lia. Qed.

Lemma u8_continuation (g : Z) :
  0 <= g < 128 -> u8 (byte_of_Z (Z.lor g 0x80)) = g + 128.
Proof.
  intros Hg. rewrite u8_byte_of_Z.
  change 128 with (1 * 2 ^ 7) at 1. rewrite lor_shifted by (change (2 ^ 7) with 128; lia).
  apply Z.mod_small. change (2 ^ 7) with 128. lia.
Qed.

(** ** readVarint *)

Lemma readVarint_while_index (fuel : nat) (buffer : list byte) (result index shift : Z) :
  0 <= index <= 8 ->
  index <= snd (readVarint_while fuel buffer result index shift) <= 8.
Proof.
  revert result index shift.
  induction fuel as [|fuel IH]; intros result index shift Hi; simpl.
  - lia.
  - destruct ((index <? byteLength buffer) && (index <? 8)) eqn:Hguard; simpl; [|lia].
    destruct (byteAt buffer index <? 128); simpl; [lia|].
    apply andb_prop in Hguard as [_ H8]. apply Z.ltb_lt in H8.
    specialize (IH (js_or result (js_shl (js_and (byteAt buffer index) 127) shift))
                  (index + 1) (shift + 7) ltac:(lia)).
    lia.
Qed.

Lemma readVarint_while_length (fuel : nat) (buffer : list byte) (result index shift : Z) :
  index <= byteLength buffer ->
  snd (readVarint_while fuel buffer result index shift) <= byteLength buffer.
Proof.
  revert result index shift.
  induction fuel as [|fuel IH]; intros result index shift Hi; simpl.
  - lia.
  - destruct ((index <? byteLength buffer) && (index <? 8)) eqn:Hguard; simpl; [|lia].
    destruct (byteAt buffer index <? 128); simpl; [lia|].
    apply andb_prop in Hguard as [Hlen _]. apply Z.ltb_lt in Hlen.
    apply IH. lia.
Qed.

Lemma readVarint_while_int32 (fuel : nat) (buffer : list byte) (result index shift : Z) :
  - 2 ^ 31 <= result < 2 ^ 31 ->
  - 2 ^ 31 <= fst (readVarint_while fuel buffer result index shift) < 2 ^ 31.
Proof.
  revert result index shift.
  induction fuel as [|fuel IH]; intros result index shift Hr; simpl.
  - exact Hr.
  - destruct ((index <? byteLength buffer) && (index <? 8)); simpl; [|exact Hr].
    destruct (byteAt buffer index <? 128); simpl.
    + apply toInt32_range.
    + apply IH. apply toInt32_range.
Qed.

(** More fuel than the nine evaluations of the condition changes nothing. *)
Lemma readVarint_while_fuel (fuel extra : nat) (buffer : list byte) (result index shift : Z) :
  8 - index < Z.of_nat fuel ->
  readVarint_while (fuel + extra) buffer result index shift
  = readVarint_while fuel buffer result index shift.
Proof.
  revert result index shift.
  induction fuel as [|fuel IH]; intros result index shift Hf.
  - destruct extra as [|extra]; simpl; [reflexivity|].
    ltb_false index 8.
    rewrite andb_false_r. reflexivity.
  - simpl.
    destruct ((index <? byteLength buffer) && (index <? 8)); [|reflexivity].
    destruct (byteAt buffer index <? 128); [reflexivity|].
    apply IH. lia.
Qed.

(** The loop looks at the first eight bytes only. *)
Lemma readVarint_while_firstn (fuel : nat) (buffer : list byte) (result index shift : Z) :
  0 <= index ->
  readVarint_while fuel buffer result index shift
  = readVarint_while fuel (firstn 8 buffer) result index shift.
Proof.
  revert result index shift.
  induction fuel as [|fuel IH]; intros result index shift Hi;
    cbn [readVarint_while]; [reflexivity|].
  destruct (index <? 8) eqn:H8.
  - apply Z.ltb_lt in H8.
    assert (Hlen : (index <? byteLength (firstn 8 buffer)) = (index <? byteLength buffer)).
    { unfold byteLength. rewrite length_firstn.
      destruct (index <? Z.of_nat (List.length buffer)) eqn:E.
      - apply Z.ltb_lt in E. apply Z.ltb_lt. lia.
      - apply Z.ltb_ge in E. apply Z.ltb_ge. lia. }
    assert (Hat : byteAt (firstn 8 buffer) index = byteAt buffer index).
    { unfold byteAt. rewrite nth_firstn.
      replace (Z.to_nat index <? 8)%nat with true; [reflexivity|].
      symmetry. apply Nat.ltb_lt. lia. }
    rewrite Hlen, Hat.
    destruct (index <? byteLength buffer); simpl; [|reflexivity].
    destruct (byteAt buffer index <? 128); [reflexivity|].
    apply IH. lia.
  - rewrite !andb_false_r. reflexivity.
Qed.

(** When every byte from [index] to the eighth has its high bit set, the
    loop leaves with [index = 8]. *)
Lemma readVarint_while_continuation (fuel : nat) (buffer : list byte) (result index shift : Z) :
  0 <= index <= 8 ->
  8 - index < Z.of_nat fuel ->
  8 <= byteLength buffer ->
  (forall i, index <= i < 8 -> 128 <= byteAt buffer i) ->
  snd (readVarint_while fuel buffer result index shift) = 8.
Proof.
  revert result index shift.
  induction fuel as [|fuel IH]; intros result index shift Hi Hf Hlen Hc; [lia|].
  simpl.
  destruct (index <? 8) eqn:H8.
  - apply Z.ltb_lt in H8.
    ltb_true index (byteLength buffer).
    simpl.
    replace (byteAt buffer index <? 128) with false
      by (symmetry; apply Z.ltb_ge; apply Hc; lia).
    apply IH; try lia.
    intros i Hi'. apply Hc. lia.
  - rewrite andb_false_r. simpl. apply Z.ltb_ge in H8. lia.
Qed.

Lemma readVarint_firstn (buffer : list byte) :
  readVarint buffer = readVarint (firstn 8 buffer).
Proof.
  unfold readVarint.
  rewrite (readVarint_while_firstn 9 buffer 0 0 0) by lia. reflexivity.
Qed.

Lemma readVarint_nextOffset (buffer : list byte) :
  1 <= nextOffset (readVarint buffer) <= 9.
Proof.
  unfold readVarint.
  pose proof (readVarint_while_index 9 buffer 0 0 0 ltac:(lia)) as H.
  destruct (readVarint_while 9 buffer 0 0 0) as [result index]. simpl in *. lia.
Qed.

Lemma readVarint_nextOffset_length (buffer : list byte) :
  nextOffset (readVarint buffer) <= byteLength buffer + 1.
Proof.
  unfold readVarint.
  pose proof (readVarint_while_length 9 buffer 0 0 0 (byteLength_nonneg buffer)) as H.
  destruct (readVarint_while 9 buffer 0 0 0) as [result index]. simpl in *. lia.
Qed.

Lemma readVarint_value_int32 (buffer : list byte) :
  - 2 ^ 31 <= value (readVarint buffer) < 2 ^ 31.
Proof.
  unfold readVarint.
  pose proof (readVarint_while_int32 9 buffer 0 0 0 ltac:(lia)) as H.
  destruct (readVarint_while 9 buffer 0 0 0) as [result index]. simpl in *. lia.
Qed.

(** One round of the loop body of [readVarint] on values that fit. *)
Lemma readVarint_accumulate (result byte shift : Z) :
  0 <= byte < 256 ->
  0 <= shift <= 24 ->
  0 <= result < 2 ^ shift ->
  js_or result (js_shl (js_and byte 0x7f) shift) = result + (byte mod 128) * 2 ^ shift.
Proof.
  intros Hb Hs Hr.
  assert (Hpow : 2 ^ shift <= 2 ^ 24) by (apply Z.pow_le_mono_r; lia).
  pose proof (Z.mod_pos_bound byte 128 ltac:(lia)) as Hg.
  assert (Hand : js_and byte 127 = byte mod 128).
  { unfold js_and. rewrite (toInt32_id byte), (toInt32_id 127) by lia.
    change 127 with (Z.ones 7). rewrite Z.land_ones by lia.
    change (2 ^ 7) with 128. apply toInt32_id. lia. }
  assert (Hshift : Z.land shift 31 = shift).
  { change 31 with (Z.ones 5). rewrite Z.land_ones by lia.
    apply Z.mod_small. change (2 ^ 5) with 32. lia. }
  assert (Hshl : js_shl (byte mod 128) shift = (byte mod 128) * 2 ^ shift).
  { unfold js_shl. rewrite Hshift, (toInt32_id (byte mod 128)) by lia.
    rewrite Z.shiftl_mul_pow2 by lia. apply toInt32_id. nia. }
  rewrite Hand, Hshl. unfold js_or.
  rewrite (toInt32_id result), (toInt32_id (byte mod 128 * 2 ^ shift)) by nia.
  rewrite lor_shifted by lia. apply toInt32_id. nia.
Qed.

Lemma readVarint_while_last (fuel : nat) (buffer : list byte) (result index shift : Z) :
  0 <= index < byteLength buffer -> index < 8 ->
  byteAt buffer index < 128 ->
  readVarint_while (S fuel) buffer result index shift
  = (js_or result (js_shl (js_and (byteAt buffer index) 0x7f) shift), index).
Proof.
  intros Hi H8 Hb. cbn [readVarint_while].
  ltb_true index (byteLength buffer).
  ltb_true index 8.
  ltb_true (byteAt buffer index) 128.
  reflexivity.
Qed.

Lemma readVarint_while_next (fuel : nat) (buffer : list byte) (result index shift : Z) :
  0 <= index < byteLength buffer -> index < 8 ->
  128 <= byteAt buffer index ->
  readVarint_while (S fuel) buffer result index shift
  = readVarint_while fuel buffer
      (js_or result (js_shl (js_and (byteAt buffer index) 0x7f) shift)) (index + 1) (shift + 7).
Proof.
  intros Hi H8 Hb. cbn [readVarint_while].
  ltb_true index (byteLength buffer).
  ltb_true index 8.
  ltb_false (byteAt buffer index) 128.
  reflexivity.
Qed.

(** A varint of two bytes: the first byte supplies the low seven bits. *)
Lemma readVarint_two_bytes (b0 b1 : byte) (rest : list byte) :
  128 <= u8 b0 -> u8 b1 < 128 ->
  readVarint (b0 :: b1 :: rest)
  = {| value := (u8 b0 - 128) + 128 * u8 b1; nextOffset := 2 |}.
Proof.
  intros H0 H1.
  pose proof (u8_range b0) as R0. pose proof (u8_range b1) as R1.
  assert (Hlen : 2 <= byteLength (b0 :: b1 :: rest)).
  { unfold byteLength. cbn [List.length]. lia. }
  unfold readVarint.
  rewrite readVarint_while_next by (try exact H0; lia).
  rewrite readVarint_while_last by (try exact H1; simpl; lia).
  change (byteAt (b0 :: b1 :: rest) 0) with (u8 b0).
  change (byteAt (b0 :: b1 :: rest) (0 + 1)) with (u8 b1).
  rewrite (readVarint_accumulate 0 (u8 b0) 0) by (simpl; lia).
  rewrite (readVarint_accumulate _ (u8 b1) (0 + 7)).
  - f_equal.
    + rewrite (Z.mod_small (u8 b1)) by lia.
      replace (u8 b0 mod 128) with (u8 b0 - 128)
        by (apply Zmod_unique with 1; lia).
      change (2 ^ 0) with 1. change (2 ^ (0 + 7)) with 128. lia.
  - lia.
  - lia.
  - change (2 ^ 0) with 1. change (2 ^ (0 + 7)) with 128.
    pose proof (Z.mod_pos_bound (u8 b0) 128 ltac:(lia)). lia.
Qed.

(** A varint of one byte is that byte. *)
Lemma readVarint_one_byte (b : byte) (rest : list byte) :
  u8 b < 128 ->
  readVarint (b :: rest) = {| value := u8 b; nextOffset := 1 |}.
Proof.
  intros Hb. pose proof (u8_range b) as Rb.
  assert (Hlen : 1 <= byteLength (b :: rest)).
  { unfold byteLength. cbn [List.length]. lia. }
  unfold readVarint.
  rewrite readVarint_while_last by (try exact Hb; lia).
  change (byteAt (b :: rest) 0) with (u8 b).
  rewrite (readVarint_accumulate 0 (u8 b) 0) by (simpl; lia).
  rewrite (Z.mod_small (u8 b)) by lia.
  change (2 ^ 0) with 1. f_equal. lia.
Qed.

(** C5 (counterexample): on the empty slice [readVarint] does not fail:
    its loop body never runs and it returns value 0 with a consumed-byte
    count of 1. *)
Lemma readVarint_empty_returns :
  readVarint [] = {| value := 0; nextOffset := 1 |}.
Proof. reflexivity. Qed.

(** C5 (amended): [readVarint] never fails.  For every input slice, empty
    or not, it returns a 32-bit value and a consumed-byte count between 1
    and 9 that is at most one more than the length of the slice; on the
    empty slice it returns value 0 and count 1. *)
Theorem readVarint_never_fails :
  (forall buffer : list byte,
      exists v n,
        readVarint buffer = {| value := v; nextOffset := n |}
        /\ - 2 ^ 31 <= v < 2 ^ 31
        /\ 1 <= n <= 9
        /\ n <= byteLength buffer + 1)
  /\ readVarint [] = {| value := 0; nextOffset := 1 |}.
Proof.
  split; [|reflexivity].
  intros buffer.
  pose proof (readVarint_value_int32 buffer) as Hv.
  pose proof (readVarint_nextOffset buffer) as Hn.
  pose proof (readVarint_nextOffset_length buffer) as Hl.
  destruct (readVarint buffer) as [v n]. simpl in *.
  exists v, n. repeat split; lia.
Qed.

(** C4 (counterexample): after eight bytes with the high bit set the ninth
    byte is not read.  Nine bytes [80 80 80 80 80 80 80 80 ff] decode to
    value 0 with count 9, exactly as with a ninth byte [00]: the eight bits
    of the ninth byte do not reach the value. *)
Lemma readVarint_ninth_byte_ignored :
  readVarint [x80; x80; x80; x80; x80; x80; x80; x80; xff]
  = {| value := 0; nextOffset := 9 |}
  /\ readVarint [x80; x80; x80; x80; x80; x80; x80; x80; x00]
     = {| value := 0; nextOffset := 9 |}.
Proof. split; reflexivity. Qed.

(** C4 (amended): [readVarint] reads at most 8 bytes of its input slice:
    its result is the result on the first eight bytes.  When these eight
    bytes all have the high bit set, the consumed-byte count is 9, and the
    ninth and later bytes contribute nothing to the value. *)
Theorem readVarint_reads_eight_bytes (buffer : list byte) :
  readVarint buffer = readVarint (firstn 8 buffer)
  /\ (8 <= byteLength buffer ->
      forallb (fun b => 0x80 <=? u8 b) (firstn 8 buffer) = true ->
      nextOffset (readVarint buffer) = 9
      /\ forall rest, readVarint (firstn 8 buffer ++ rest) = readVarint buffer).
Proof.
  split; [apply readVarint_firstn|].
  intros Hlen Hall. split.
  - unfold readVarint.
    pose proof (readVarint_while_continuation 9 buffer 0 0 0) as H.
    destruct (readVarint_while 9 buffer 0 0 0) as [result index]. simpl in *.
    rewrite H; try lia.
    intros i Hi. unfold byteAt.
    rewrite forallb_forall in Hall.
    assert (Hin : In (nth (Z.to_nat i) buffer x00) (firstn 8 buffer)).
    { replace (nth (Z.to_nat i) buffer x00) with (nth (Z.to_nat i) (firstn 8 buffer) x00).
      - apply nth_In. rewrite length_firstn. unfold byteLength in Hlen. lia.
      - rewrite nth_firstn.
        replace (Z.to_nat i <? 8)%nat with true; [reflexivity|].
        symmetry. apply Nat.ltb_lt. lia. }
    apply Hall in Hin. apply Z.leb_le in Hin. exact Hin.
  - intros rest.
    rewrite (readVarint_firstn (firstn 8 buffer ++ rest)).
    rewrite firstn_app, firstn_firstn, length_firstn.
    unfold byteLength in Hlen.
    replace (8 - Nat.min 8 (List.length buffer))%nat with 0%nat by lia.
    simpl firstn at 2. rewrite app_nil_r.
    symmetry. apply readVarint_firstn.
Qed.

Lemma readVarint_reads_eight_bytes_witness :
  nextOffset (readVarint [xff; xff; xff; xff; xff; xff; xff; xff; x7f; x01]) = 9
  /\ forall rest,
      readVarint (firstn 8 [xff; xff; xff; xff; xff; xff; xff; xff; x7f; x01] ++ rest)
      = readVarint [xff; xff; xff; xff; xff; xff; xff; xff; x7f; x01].
Proof.
  apply (readVarint_reads_eight_bytes [xff; xff; xff; xff; xff; xff; xff; xff; x7f; x01]).
  - vm_compute. discriminate.
  - reflexivity.
Defined.

(** ** getSerialTypeSize *)

Lemma getSerialTypeSize_blob (code : Z) :
  12 <= code -> Z.even code = true -> getSerialTypeSize code = (code - 12) / 2.
Proof.
  intros Hc He. unfold getSerialTypeSize.
  repeat match goal with
         | |- context [code =? ?k] => destruct (Z.eqb_spec code k); [lia|]
         end.
  simpl orb. cbv iota.
  replace (code >=? 12) with true by (symmetry; apply Z.geb_le; lia).
  rewrite Z.rem_mod_nonneg by lia.
  rewrite Zmod_even, He. reflexivity.
Qed.

Lemma getSerialTypeSize_text (code : Z) :
  13 <= code -> Z.odd code = true -> getSerialTypeSize code = (code - 13) / 2.
Proof.
  intros Hc Ho. unfold getSerialTypeSize.
  repeat match goal with
         | |- context [code =? ?k] => destruct (Z.eqb_spec code k); [lia|]
         end.
  simpl orb. cbv iota.
  replace (code >=? 12) with true by (symmetry; apply Z.geb_le; lia).
  replace (code >=? 13) with true by (symmetry; apply Z.geb_le; lia).
  rewrite Z.rem_mod_nonneg by lia.
  rewrite Zmod_even. rewrite <- Z.negb_odd, Ho. reflexivity.
Qed.

(** C6: the serial-type size function is the table of the format: codes
    0 to 9 give 0, 1, 2, 3, 4, 6, 8, 8, 0, 0; an even code from 12 on gives
    (code - 12) / 2 and an odd code from 13 on gives (code - 13) / 2, both
    divisions being exact; in particular 12, 13, 14, 15 and 100 give 0, 0,
    1, 1 and 44. *)
Theorem getSerialTypeSize_table :
  map getSerialTypeSize [0; 1; 2; 3; 4; 5; 6; 7; 8; 9] = [0; 1; 2; 3; 4; 6; 8; 8; 0; 0]
  /\ (forall code, 12 <= code -> Z.even code = true ->
        getSerialTypeSize code = (code - 12) / 2
        /\ 2 * getSerialTypeSize code = code - 12)
  /\ (forall code, 13 <= code -> Z.odd code = true ->
        getSerialTypeSize code = (code - 13) / 2
        /\ 2 * getSerialTypeSize code = code - 13)
  /\ map getSerialTypeSize [12; 13; 14; 15; 100] = [0; 0; 1; 1; 44].
Proof.
  split; [reflexivity|]. split; [|split; [|reflexivity]].
  - intros code Hc He.
    rewrite (getSerialTypeSize_blob code Hc He). split; [reflexivity|].
    pose proof (Zmod_even (code - 12)) as Hm.
    rewrite Z.even_sub, He in Hm. simpl in Hm.
    pose proof (Z.div_mod (code - 12) 2 ltac:(lia)). lia.
  - intros code Hc Ho.
    rewrite (getSerialTypeSize_text code Hc Ho). split; [reflexivity|].
    pose proof (Zmod_even (code - 13)) as Hm.
    rewrite Z.even_sub, <- !Z.negb_odd, Ho in Hm. simpl in Hm.
    pose proof (Z.div_mod (code - 13) 2 ltac:(lia)). lia.
Qed.

Lemma getSerialTypeSize_table_witness :
  (getSerialTypeSize 100 = (100 - 12) / 2 /\ 2 * getSerialTypeSize 100 = 100 - 12)
  /\ (getSerialTypeSize 23 = (23 - 13) / 2 /\ 2 * getSerialTypeSize 23 = 23 - 13).
Proof.
  destruct getSerialTypeSize_table as (_ & Hblob & Htext & _).
  split.
  - apply (Hblob 100); [lia | reflexivity].
  - apply (Htext 23); [lia | reflexivity].
Defined.

(** ** parseCellPayload *)

Lemma headerLoop_body_decreases (buffer : list byte) (s : HeaderLoop) :
  1 <= nextOffset (readVarint (subarrayFrom buffer (offset s)))
  /\ headerRemainingBytes (headerLoop_body buffer s) < headerRemainingBytes s.
Proof.
  pose proof (readVarint_nextOffset (subarrayFrom buffer (offset s))) as Hn.
  unfold headerLoop_body. simpl. lia.
Qed.

Lemma headerLoop_done (fuel : nat) (buffer : list byte) (s : HeaderLoop) :
  headerRemainingBytes s <= 0 -> headerLoop fuel buffer s = s.
Proof.
  intros Hs. destruct fuel as [|fuel]; simpl; [reflexivity|].
  replace (headerRemainingBytes s >? 0) with false; [reflexivity|].
  symmetry. rewrite Z.gtb_ltb. apply Z.ltb_ge. lia.
Qed.

Lemma headerLoop_step (fuel : nat) (buffer : list byte) (s : HeaderLoop) :
  0 < headerRemainingBytes s ->
  headerLoop (S fuel) buffer s = headerLoop fuel buffer (headerLoop_body buffer s).
Proof.
  intros Hs. simpl.
  replace (headerRemainingBytes s >? 0) with true; [reflexivity|].
  symmetry. rewrite Z.gtb_ltb. apply Z.ltb_lt. lia.
Qed.

(** The header-region loop makes a definite number [n] of iterations, at
    most the initial value of the counter: after them the counter is zero
    or below, one serial type has been collected per iteration, and any
    further fuel is left unused. *)
Lemma headerLoop_iterations (bound : nat) (buffer : list byte) (s : HeaderLoop) :
  headerRemainingBytes s <= Z.of_nat bound ->
  exists n : nat,
    Z.of_nat n <= Z.max 0 (headerRemainingBytes s)
    /\ headerRemainingBytes (headerLoop n buffer s) <= 0
    /\ List.length (serialTypes (headerLoop n buffer s)) = (List.length (serialTypes s) + n)%nat
    /\ (forall extra, headerLoop (n + extra) buffer s = headerLoop n buffer s)
    /\ (forall m, (m < n)%nat -> 0 < headerRemainingBytes (headerLoop m buffer s)).
Proof.
  revert s.
  induction bound as [|bound IH]; intros s Hs.
  - exists 0%nat. simpl. repeat split; try lia.
    intros extra. apply headerLoop_done. lia.
  - destruct (Z_lt_le_dec 0 (headerRemainingBytes s)) as [Hpos|Hneg].
    + destruct (headerLoop_body_decreases buffer s) as [_ Hdec].
      destruct (IH (headerLoop_body buffer s) ltac:(lia)) as (n & Hn & Hexit & Hlen & Hextra & Hrun).
      exists (S n).
      rewrite (headerLoop_step n buffer s Hpos).
      repeat split.
      * lia.
      * exact Hexit.
      * rewrite Hlen. unfold headerLoop_body. simpl. rewrite length_app. simpl. lia.
      * intros extra. simpl plus. rewrite (headerLoop_step (n + extra) buffer s Hpos).
        apply Hextra.
      * intros m Hm. destruct m as [|m]; [exact Hpos|].
        rewrite (headerLoop_step m buffer s Hpos). apply Hrun. lia.
    + exists 0%nat. simpl. repeat split; try lia.
      intros extra. apply headerLoop_done. lia.
Qed.

Lemma valueLoop_length `{Platform}
  (buffer : list byte) (types : list Z) (offset rowId : Z) (data out : list string) :
  valueLoop buffer types offset rowId data = Normal out ->
  List.length out = (List.length data + List.length types)%nat.
Proof.
  revert offset data.
  induction types as [|serialType rest IH]; intros offset data Hout; simpl in Hout.
  - injection Hout as <-. simpl. lia.
  - destruct (parseSerialTypeValue _ serialType rowId) as [v|e]; simpl in Hout; [|discriminate].
    apply IH in Hout. rewrite Hout, length_app. simpl. lia.
Qed.

(** C10: [parseCellPayload] terminates for every buffer and offset.  Each
    iteration of the header-region loop reads a varint whose consumed-byte
    count is at least 1, so [headerRemainingBytes] strictly decreases; the
    loop therefore ends after some number [n] of iterations, at most the
    initial value of the counter, with the counter at zero or below and [n]
    serial types collected.  With [n] or more iterations allowed the
    function returns its outcome, and when it returns normally the value
    loop has produced one value per serial type. *)
Theorem parseCellPayload_terminates `{Platform} (buffer : list byte) (offset0 rowId : Z) :
  (forall s : HeaderLoop,
      1 <= nextOffset (readVarint (subarrayFrom buffer (offset s)))
      /\ headerRemainingBytes (headerLoop_body buffer s) < headerRemainingBytes s)
  /\ exists n : nat,
      Z.of_nat n <= Z.max 0 (headerRemainingBytes (headerLoop_init buffer offset0))
      /\ headerRemainingBytes (headerLoop n buffer (headerLoop_init buffer offset0)) <= 0
      /\ List.length (serialTypes (headerLoop n buffer (headerLoop_init buffer offset0))) = n
      /\ (forall extra,
            parseCellPayload_fuel (n + extra) buffer offset0 rowId
            = Some (parseCellPayload buffer offset0 rowId))
      /\ match parseCellPayload buffer offset0 rowId with
         | Normal data => List.length data = n
         | Throw _ => True
         end.
Proof.
  split; [intros s; apply headerLoop_body_decreases|].
  set (s0 := headerLoop_init buffer offset0).
  destruct (headerLoop_iterations (Z.to_nat (headerRemainingBytes s0)) buffer s0 ltac:(lia))
    as (n & Hn & Hexit & Hlen & Hextra & _).
  assert (Hfuel : headerLoop (Z.to_nat (headerRemainingBytes s0)) buffer s0 = headerLoop n buffer s0).
  { replace (Z.to_nat (headerRemainingBytes s0))
      with (n + (Z.to_nat (headerRemainingBytes s0) - n))%nat by lia.
    apply Hextra. }
  assert (Hdef : parseCellPayload buffer offset0 rowId
                 = valueLoop buffer (serialTypes (headerLoop n buffer s0))
                     (offset (headerLoop n buffer s0)) rowId []).
  { unfold parseCellPayload. fold s0. cbv zeta. rewrite Hfuel. reflexivity. }
  exists n. repeat split.
  - exact Hn.
  - exact Hexit.
  - rewrite Hlen. reflexivity.
  - intros extra. unfold parseCellPayload_fuel. fold s0. cbv zeta.
    rewrite Hextra, Hdef.
    replace (headerRemainingBytes (headerLoop n buffer s0) >? 0) with false; [reflexivity|].
    symmetry. rewrite Z.gtb_ltb. apply Z.ltb_ge. exact Hexit.
  - rewrite Hdef.
    destruct (valueLoop buffer (serialTypes (headerLoop n buffer s0))
                (offset (headerLoop n buffer s0)) rowId []) as [data|e] eqn:Hv; [|exact I].
    apply valueLoop_length in Hv. rewrite Hv, Hlen. reflexivity.
Qed.

(** The test of the repository: a record of one column, an 8-bit integer. *)
Lemma parseCellPayload_terminates_witness :
  exists n : nat,
    @parseCellPayload_fuel asciiPlatform n [x02; x01; x01; x01] 0 defaultRowId
    = Some (Normal ["1"%string]).
Proof.
  destruct (@parseCellPayload_terminates asciiPlatform [x02; x01; x01; x01] 0 defaultRowId)
    as (_ & n & _ & _ & _ & Hfuel & _).
  exists n. specialize (Hfuel 0%nat). rewrite Nat.add_0_r in Hfuel. exact Hfuel.
Defined.

(** ** Reading from the file *)

Lemma getBufferFromOffset_length (file : FileHandle) (bufferSize offset : Z) :
  List.length (getBufferFromOffset file bufferSize offset) = Z.to_nat bufferSize.
Proof.
  unfold getBufferFromOffset.
  rewrite length_app, repeat_length, length_firstn. lia.
Qed.

(** A file shorter than the buffer fills its beginning; zeros follow. *)
Lemma getBufferFromOffset_short (file : FileHandle) (bufferSize : Z) :
  byteLength file <= bufferSize ->
  getBufferFromOffset file bufferSize 0
  = file ++ repeat x00 (Z.to_nat bufferSize - List.length file).
Proof.
  unfold byteLength. intros Hlen. unfold getBufferFromOffset.
  simpl skipn. rewrite firstn_all2 by lia. reflexivity.
Qed.

(** ** parseDatabaseFileHeader *)

(** C8 (counterexample): on an empty input, which provides none of the 100
    header bytes, header parsing does not fail: it returns a header whose
    fields are all read from the zero-filled buffer. *)
Lemma parseDatabaseFileHeader_empty_input :
  parseDatabaseFileHeader []
  = {| header_string := fromCharCode (repeat x00 16);
       database_page_size := 0;
       file_format_write_version := 0;
       file_format_read_version := 0;
       reserved_space_at_end_of_each_page := 0;
       maximum_embedded_payload_fraction := 0;
       minimum_embedded_payload_fraction := 0;
       leaf_payload_fraction := 0;
       file_change_counter := 0;
       number_of_pages := 0;
       first_freeList_trunk_page := 0;
       total_freeList_pages := 0;
       schema_cookie := 0;
       schema_format_number := 0;
       default_page_cache_size := 0;
       largest_root_b_tree_page_number := 0;
       database_text_encoding := 0;
       user_version := 0;
       incremental_vacuum_mode := 0;
       application_ID := 0;
       reserved_for_expansion := repeat x00 20;
       version_valid_for_number := 0;
       sqlite_version_number := 0 |}.
Proof. reflexivity. Qed.

(** Past the end of the file the header buffer holds zeros. *)
Lemma getBufferFromOffset_zero_fill (file : FileHandle) (bufferSize index : Z) :
  byteLength file <= index ->
  byteAt (getBufferFromOffset file bufferSize 0) index = 0.
Proof.
  unfold byteLength, byteAt, getBufferFromOffset. intros Hi.
  simpl skipn.
  set (data := firstn (Z.to_nat bufferSize) file).
  assert (Hdata : (List.length data <= Z.to_nat index)%nat).
  { unfold data. rewrite length_firstn. lia. }
  rewrite app_nth2 by lia.
  destruct (Nat.lt_ge_cases (Z.to_nat index - List.length data)
              (Z.to_nat bufferSize - List.length data)) as [Hin|Hout].
  - rewrite nth_repeat. reflexivity.
  - rewrite nth_overflow by (rewrite repeat_length; lia). reflexivity.
Qed.

(** C8 (amended): for every input providing fewer than 100 bytes of header
    data, file-header parsing does not fail: it returns the header
    structure of the input padded with zero bytes to 100 bytes.  The header
    buffer always has 100 bytes, and every byte of it past the end of the
    input is zero, so the fields read there are zero-filled. *)
Theorem parseDatabaseFileHeader_truncated (file : FileHandle) :
  byteLength file < 100 ->
  parseDatabaseFileHeader file
  = parseDatabaseFileHeader (file ++ repeat x00 (100 - List.length file))
  /\ byteLength (getBufferFromOffset file maxByteSize 0) = 100
  /\ forall index, byteLength file <= index ->
                   byteAt (getBufferFromOffset file maxByteSize 0) index = 0.
Proof.
  intros Hlen.
  assert (Hbuf : getBufferFromOffset file maxByteSize 0
                 = getBufferFromOffset (file ++ repeat x00 (100 - List.length file)) maxByteSize 0).
  { unfold maxByteSize, byteLength in *.
    rewrite (getBufferFromOffset_short file 100) by (unfold byteLength; lia).
    rewrite getBufferFromOffset_short
      by (unfold byteLength; rewrite length_app, repeat_length; lia).
    rewrite length_app, repeat_length.
    replace (Z.to_nat 100 - (List.length file + (100 - List.length file)))%nat with 0%nat by lia.
    replace (Z.to_nat 100) with 100%nat by reflexivity.
    simpl repeat at 3. rewrite app_nil_r. reflexivity. }
  split; [|split].
  - unfold parseDatabaseFileHeader. rewrite Hbuf. reflexivity.
  - unfold byteLength. rewrite getBufferFromOffset_length. reflexivity.
  - intros index. apply getBufferFromOffset_zero_fill.
Qed.

(** A file of 18 bytes, cut after the page-size field: the page size is
    read, every later field is zero. *)
Lemma parseDatabaseFileHeader_truncated_witness :
  database_page_size (parseDatabaseFileHeader (firstn 18 fileHeader4096)) = 4096
  /\ number_of_pages (parseDatabaseFileHeader (firstn 18 fileHeader4096)) = 0
  /\ byteLength (getBufferFromOffset (firstn 18 fileHeader4096) maxByteSize 0) = 100.
Proof.
  destruct (parseDatabaseFileHeader_truncated (firstn 18 fileHeader4096)) as (Hpad & Hlen & _).
  - vm_compute. reflexivity.
  - rewrite Hpad. split; [|split].
    + vm_compute. reflexivity.
    + vm_compute. reflexivity.
    + exact Hlen.
Defined.

(** ** parsePageHeader *)

(** The header size is 8 exactly when the page-type byte is 13 or the byte
    at offset 8 of the page header, read as a signed byte, is 10. *)
Lemma parsePageHeader_headerSize (file : FileHandle) (offset : Z) :
  headerSize (parsePageHeader file offset)
  = if (b_tree_page_type (parsePageHeader file offset) =? 13)
       || (getInt8 (getBufferFromOffset file 12 offset) 8 =? 10)
    then 8 else 12.
Proof. reflexivity. Qed.

Lemma parsePageHeader_leaf_table (file : FileHandle) (offset : Z) :
  b_tree_page_type (parsePageHeader file offset) = 13 ->
  headerSize (parsePageHeader file offset) = 8.
Proof.
  intros Ht. rewrite parsePageHeader_headerSize, Ht. reflexivity.
Qed.

(** For every page type other than 13 the header size is decided by the
    byte at offset 8, not by the type. *)
Lemma parsePageHeader_other_types (file : FileHandle) (offset : Z) :
  b_tree_page_type (parsePageHeader file offset) <> 13 ->
  headerSize (parsePageHeader file offset)
  = if getInt8 (getBufferFromOffset file 12 offset) 8 =? 10 then 8 else 12.
Proof.
  intros Ht. rewrite parsePageHeader_headerSize.
  destruct (Z.eqb_spec (b_tree_page_type (parsePageHeader file offset)) 13); [contradiction|].
  reflexivity.
Qed.

(** C3 (code evaluated at the failing inputs): a leaf-index page (type
    byte 10) with two cells, whose byte at offset 8 is the high byte 0x0f
    of its first cell pointer, gets header size 12, not 8; and an
    interior-table page (type byte 5) whose right-most pointer starts with
    the byte 0x0a gets header size 8, not 12. *)
Theorem parsePageHeader_headerSize_by_byte_8 :
  b_tree_page_type (parsePageHeader (twoCellFile x0a [x03; x02; x01] [x03; x02; x02]) 100) = 10
  /\ headerSize (parsePageHeader (twoCellFile x0a [x03; x02; x01] [x03; x02; x02]) 100) = 12
  /\ b_tree_page_type
       (parsePageHeader
          (fileHeader4096 ++ [x05; x00; x00; x00; x00; x10; x00; x00; x0a; x00; x00; x00]) 100) = 5
  /\ headerSize
       (parsePageHeader
          (fileHeader4096 ++ [x05; x00; x00; x00; x00; x10; x00; x00; x0a; x00; x00; x00]) 100) = 8.
Proof. repeat split; vm_compute; reflexivity. Qed.

Lemma getUint16_range (view : list byte) (byteOffset : Z) :
  0 <= getUint16 view byteOffset < 65536.
Proof.
  unfold getUint16.
  pose proof (byteAt_range view byteOffset).
  pose proof (byteAt_range view (byteOffset + 1)). lia.
Qed.

(** C7 (code evaluated at the failing input): the reported start of the
    cell content area is the raw two-byte field, always below 65536; for a
    page header whose field at offset 5 holds 0 the reported start is 0,
    not 65536. *)
Theorem parsePageHeader_cell_content_start_raw :
  (forall (file : FileHandle) (offset : Z),
      start_of_cell_content_area (parsePageHeader file offset)
      = getUint16 (getBufferFromOffset file 12 offset) 5
      /\ 0 <= start_of_cell_content_area (parsePageHeader file offset) < 65536)
  /\ start_of_cell_content_area
       (parsePageHeader (fileHeader4096 ++ [x0d; x00; x00; x00; x00; x00; x00; x00]) 100) = 0.
Proof.
  split; [|vm_compute; reflexivity].
  intros file offset. split; [reflexivity|].
  apply getUint16_range.
Qed.

(** ** getCellPointerArray *)

Lemma cellPointerLoop_in_range (iterations : nat) (pointerBuffer : list byte) (c : Z)
  (pointerArray : list Z) :
  (c + Z.of_nat iterations) * 2 <= byteLength pointerBuffer ->
  exists pointers,
    cellPointerLoop iterations pointerBuffer c pointerArray = Normal pointers
    /\ List.length pointers = (List.length pointerArray + iterations)%nat.
Proof.
  revert c pointerArray.
  induction iterations as [|iterations IH]; intros c pointerArray Hlen; simpl.
  - exists pointerArray. split; [reflexivity|lia].
  - replace (c * 2 + 2 <=? byteLength pointerBuffer) with true
      by (symmetry; apply Z.leb_le; lia).
    destruct (IH (c + 1) (pointerArray ++ [getUint16 pointerBuffer (c * 2)]) ltac:(lia))
      as (pointers & Hrun & Hcount).
    exists pointers. split; [exact Hrun|].
    rewrite Hcount, length_app. simpl. lia.
Qed.

(** The pointer buffer always has [cellCount * 2] bytes, so the
    [RangeError] of the loop is never thrown: the reader returns one
    pointer per cell, whatever the file holds. *)
Lemma getCellPointerArray_returns (file : FileHandle) (offset : Z) :
  exists pointers,
    getCellPointerArray file offset = Normal pointers
    /\ Z.of_nat (List.length pointers) = number_of_cells (parsePageHeader file offset).
Proof.
  unfold getCellPointerArray.
  set (h := parsePageHeader file offset).
  assert (Hcells : 0 <= number_of_cells h < 65536) by apply getUint16_range.
  destruct (cellPointerLoop_in_range (Z.to_nat (number_of_cells h))
              (getBufferFromOffset file (number_of_cells h * 2) (offset + headerSize h)) 0 [])
    as (pointers & Hrun & Hcount).
  { unfold byteLength. rewrite getBufferFromOffset_length. lia. }
  exists pointers. split; [exact Hrun|].
  rewrite Hcount. cbn [List.length Nat.add]. lia.
Qed.

(** ** getTableNames *)

Lemma subarrayFrom_beyond (buffer : list byte) (begin : Z) :
  byteLength buffer <= begin -> subarrayFrom buffer begin = [].
Proof.
  intros Hb. pose proof (byteLength_nonneg buffer) as Hlen.
  unfold subarrayFrom, subarray, clampIndex.
  ltb_false begin 0.
  ltb_false (byteLength buffer) 0.
  rewrite !Z.min_r by lia.
  rewrite Z.sub_diag. reflexivity.
Qed.

(** An empty slice decodes to a record without columns. *)
Lemma parseTableLeafCell_empty `{Platform} : parseTableLeafCell [] = Normal [].
Proof. reflexivity. Qed.

Lemma tableNamesLoop_accumulator `{Platform}
  (pageBuffer : list byte) (cellPointers : list Z) (tableNames : list (option string)) :
  tableNamesLoop pageBuffer cellPointers tableNames
  = (names <- tableNamesLoop pageBuffer cellPointers [] ;; Normal (tableNames ++ names)).
Proof.
  revert tableNames.
  induction cellPointers as [|cellPointer rest IH]; intros tableNames;
    cbn [tableNamesLoop bind].
  - rewrite app_nil_r. reflexivity.
  - destruct (parseTableLeafCell (subarrayFrom pageBuffer cellPointer)) as [row|e];
      cbn [bind]; [|reflexivity].
    rewrite IH. rewrite (IH ([] ++ _)).
    destruct (tableNamesLoop pageBuffer rest []) as [names|e]; cbn [bind]; [|reflexivity].
    rewrite <- app_assoc. reflexivity.
Qed.

Lemma tableNamesLoop_app `{Platform}
  (pageBuffer : list byte) (before after : list Z) (tableNames : list (option string)) :
  tableNamesLoop pageBuffer (before ++ after) tableNames
  = (names <- tableNamesLoop pageBuffer before tableNames ;;
     tableNamesLoop pageBuffer after names).
Proof.
  revert tableNames.
  induction before as [|cellPointer rest IH]; intros tableNames;
    cbn [tableNamesLoop bind app]; [reflexivity|].
  destruct (parseTableLeafCell (subarrayFrom pageBuffer cellPointer)) as [row|e];
    cbn [bind]; [|reflexivity].
  apply IH.
Qed.

(** C9 (counterexample): a page whose only cell pointer is 65535, beyond
    the 4096 bytes of the page buffer.  Whatever the platform, [parse] does
    not fail: it returns a table-name list whose entry for that pointer is
    [undefined]. *)
Lemma parse_dangling_pointer_returns :
  ~ (exists P : Platform, exists e : exn, @parse P danglingPointerFile = Throw e)
  /\ @parse asciiPlatform danglingPointerFile
     = Normal {| pageSize := 4096; pageCount := 1; numberOfTables := 1;
                 tableNames := [None] |}.
Proof.
  split; [|vm_compute; reflexivity].
  intros (P & e & Hthrow). vm_compute in Hthrow. discriminate.
Qed.

(** A cell pointer at or beyond the length of the page buffer: the slice
    taken at it is empty and decodes to a record without columns, so the
    table name for it is [undefined]. *)
Lemma getTableNames_pointer_out_of_bounds `{Platform}
  (this : DatabaseFileParser) (before after : list Z) (cellPointer : Z) :
  cellPointersArray this = before ++ cellPointer :: after ->
  byteLength (pageBuffer this) <= cellPointer ->
  getTableNames this
  = (names1 <- tableNamesLoop (pageBuffer this) before [] ;;
     names2 <- tableNamesLoop (pageBuffer this) after [] ;;
     Normal (names1 ++ None :: names2)).
Proof.
  intros Hpointers Hbeyond. unfold getTableNames.
  rewrite Hpointers, tableNamesLoop_app.
  destruct (tableNamesLoop (pageBuffer this) before []) as [names1|e];
    cbn [bind tableNamesLoop]; [|reflexivity].
  rewrite (subarrayFrom_beyond _ _ Hbeyond), parseTableLeafCell_empty.
  cbn [bind PageCellData_index nth_error].
  rewrite tableNamesLoop_accumulator.
  destruct (tableNamesLoop (pageBuffer this) after []) as [names2|e];
    cbn [bind]; [|reflexivity].
  rewrite <- app_assoc. reflexivity.
Qed.

(** ** parse *)

Lemma tableNamesLoop_length `{Platform}
  (pageBuffer : list byte) (cellPointers : list Z) (tableNames names : list (option string)) :
  tableNamesLoop pageBuffer cellPointers tableNames = Normal names ->
  List.length names = (List.length tableNames + List.length cellPointers)%nat.
Proof.
  revert tableNames.
  induction cellPointers as [|cellPointer rest IH]; intros tableNames Hrun;
    cbn [tableNamesLoop] in Hrun.
  - injection Hrun as <-. simpl. lia.
  - destruct (parseTableLeafCell (subarrayFrom pageBuffer cellPointer)) as [row|e];
      cbn [bind] in Hrun; [|discriminate].
    apply IH in Hrun. rewrite Hrun, length_app. simpl. lia.
Qed.

(** X17: what [parse] returns: page size and page count are the file
    header's, the number of tables is the cell count of the page header at
    offset 100, and there is one table-name entry per cell. *)
Lemma parse_returns_fields `{Platform} (file : FileHandle) (info : DatabaseInfo) :
  parse file = Normal info ->
  pageSize info = database_page_size (parseDatabaseFileHeader file)
  /\ pageCount info = number_of_pages (parseDatabaseFileHeader file)
  /\ numberOfTables info = number_of_cells (parsePageHeader file maxByteSize)
  /\ Z.of_nat (List.length (tableNames info)) = numberOfTables info.
Proof.
  unfold parse. intros Hparse.
  destruct (getCellPointerArray_returns file maxByteSize) as (pointers & Hpointers & Hcount).
  rewrite Hpointers in Hparse. cbn [bind] in Hparse.
  unfold getTableNames in Hparse.
  change (cellPointersArray (parserWith file pointers)) with pointers in Hparse.
  destruct (tableNamesLoop _ pointers []) as [names|e] eqn:Hnames;
    cbn [bind] in Hparse; [|discriminate].
  injection Hparse as <-.
  apply tableNamesLoop_length in Hnames.
  repeat split.
  cbn [tableNames numberOfTables]. rewrite Hnames. cbn [List.length Nat.add].
  exact Hcount.
Qed.

(** The page buffer has as many bytes as the page size of the header. *)
Lemma pageBuffer_length (file : FileHandle) (pointers : list Z) :
  byteLength (pageBuffer (parserWith file pointers))
  = database_page_size (parseDatabaseFileHeader file).
Proof.
  unfold byteLength. cbn [pageBuffer parserWith].
  rewrite getBufferFromOffset_length.
  pose proof (getUint16_range (getBufferFromOffset file maxByteSize 0) 16) as Hsize.
  change (getUint16 (getBufferFromOffset file maxByteSize 0) 16)
    with (database_page_size (parseDatabaseFileHeader file)) in Hsize.
  lia.
Qed.

(** C9 (amended): a cell-pointer-array entry at or beyond the length of
    the page buffer (the page size) raises no error.  [parse] goes on as
    for the other pointers and returns a table-name list that has
    [undefined] at the position of that entry, between the names decoded
    for the pointers before it and those decoded for the pointers after
    it. *)
Theorem parse_pointer_out_of_bounds `{Platform}
  (file : FileHandle) (before after : list Z) (cellPointer : Z) :
  getCellPointerArray file maxByteSize = Normal (before ++ cellPointer :: after) ->
  database_page_size (parseDatabaseFileHeader file) <= cellPointer ->
  parse file
  = (names1 <- tableNamesLoop
                 (getBufferFromOffset file (database_page_size (parseDatabaseFileHeader file)) 0)
                 before [] ;;
     names2 <- tableNamesLoop
                 (getBufferFromOffset file (database_page_size (parseDatabaseFileHeader file)) 0)
                 after [] ;;
     Normal {| pageSize := database_page_size (parseDatabaseFileHeader file);
               pageCount := number_of_pages (parseDatabaseFileHeader file);
               numberOfTables := number_of_cells (parsePageHeader file maxByteSize);
               tableNames := names1 ++ None :: names2 |}).
Proof.
  intros Hpointers Hbeyond. unfold parse.
  rewrite Hpointers. cbn [bind].
  rewrite (getTableNames_pointer_out_of_bounds
             (parserWith file (before ++ cellPointer :: after)) before after cellPointer eq_refl)
    by (rewrite pageBuffer_length; exact Hbeyond).
  cbn [pageBuffer parserWith].
  destruct (tableNamesLoop _ before []) as [names1|e]; cbn [bind]; [|reflexivity].
  destruct (tableNamesLoop _ after []) as [names2|e]; cbn [bind]; reflexivity.
Qed.

Lemma parse_pointer_out_of_bounds_witness :
  @parse asciiPlatform strayPointerFile
  = Normal {| pageSize := 4096; pageCount := 1; numberOfTables := 3;
              tableNames := [Some "t1"%string; None; Some "t2"%string] |}.
Proof.
  rewrite (@parse_pointer_out_of_bounds asciiPlatform strayPointerFile [4024] [4060] 65535).
  - vm_compute. reflexivity.
  - vm_compute. reflexivity.
  - vm_compute. discriminate.
Defined.

(** C1 (counterexample): on the file of the end-to-end example, whose two
    cells each encode a single TEXT column, no platform makes [parse]
    return the table names "t1" and "t2": a record with one column has no
    column at index 2, where the table name is taken. *)
Lemma parse_singleColumnFile_not_t1_t2 :
  ~ (exists P : Platform,
        @parse P singleColumnFile
        = Normal {| pageSize := 4096; pageCount := 1; numberOfTables := 2;
                    tableNames := [Some "t1"%string; Some "t2"%string] |}).
Proof.
  intros (P & Hparse). vm_compute in Hparse. discriminate.
Qed.

(** ** The varint round trip *)

(** Values below 128 are encoded in one byte, and these do make the round
    trip. *)
Lemma readVarint_encodeVarint_one_byte (v : Z) :
  0 <= v < 128 ->
  readVarint (encodeVarint v) = {| value := v; nextOffset := 1 |}.
Proof.
  intros Hv.
  assert (Henc : encodeVarint v = [byte_of_Z (v mod 128)]).
  { unfold encodeVarint.
    ltb_true v (2 ^ 56).
    rewrite (Z.div_small v 128) by lia. reflexivity. }
  assert (Hbyte : u8 (byte_of_Z (v mod 128)) = v).
  { rewrite u8_byte_of_Z, (Z.mod_small v 128) by lia. apply Z.mod_small. lia. }
  rewrite Henc, readVarint_one_byte by (rewrite Hbyte; lia).
  rewrite Hbyte. reflexivity.
Qed.

(** Values of two groups come back with the groups exchanged: the round
    trip holds for them only when both groups are equal. *)
Lemma readVarint_encodeVarint_two_bytes (v : Z) :
  128 <= v < 2 ^ 14 ->
  readVarint (encodeVarint v) = {| value := v / 128 + 128 * (v mod 128); nextOffset := 2 |}.
Proof.
  intros Hv. change (2 ^ 14) with 16384 in Hv.
  assert (Hq : 1 <= v / 128 < 128).
  { split; [apply Z.div_le_lower_bound; lia | apply Z.div_lt_upper_bound; lia]. }
  pose proof (Z.mod_pos_bound v 128 ltac:(lia)) as Hr.
  assert (Henc : encodeVarint v
                 = [byte_of_Z (Z.lor (v / 128 mod 128) 128); byte_of_Z (v mod 128)]).
  { unfold encodeVarint.
    ltb_true v (2 ^ 56).
    cbn [encodeVarint_groups].
    destruct (Z.eqb_spec (v / 128) 0); [lia|].
    rewrite (Z.div_small (v / 128) 128) by lia. reflexivity. }
  rewrite Henc.
  assert (Hfirst : u8 (byte_of_Z (Z.lor (v / 128 mod 128) 128)) = v / 128 + 128).
  { rewrite u8_byte_of_Z. rewrite (Z.mod_small (v / 128)) by lia.
    change 128 with (1 * 2 ^ 7) at 2. rewrite lor_shifted by (change (2 ^ 7) with 128; lia).
    apply Z.mod_small. change (2 ^ 7) with 128. lia. }
  assert (Hsecond : u8 (byte_of_Z (v mod 128)) = v mod 128).
  { rewrite u8_byte_of_Z. apply Z.mod_small. lia. }
  rewrite readVarint_two_bytes by (rewrite ?Hfirst, ?Hsecond; lia).
  rewrite Hfirst, Hsecond. f_equal. lia.
Qed.

(** The bytes [readVarint] does invert: groups of seven bits with the
    least significant group first. *)
Lemma encodeVarintLE_groups_step (fuel : nat) (v : Z) :
  encodeVarintLE_groups (S fuel) v
  = if v <? 128 then [byte_of_Z v]
    else byte_of_Z (Z.lor (v mod 128) 0x80) :: encodeVarintLE_groups fuel (v / 128).
Proof. reflexivity. Qed.


(** The loop over the bytes of such an encoding, entered behind the bytes
    [pre] already read. *)
Lemma readVarint_while_LE (k fuel : nat) (pre rest : list byte) (v result : Z) :
  (S k < fuel)%nat ->
  byteLength pre + Z.of_nat (S k) <= 4 ->
  0 <= v < 128 ^ Z.of_nat (S k) ->
  0 <= result < 2 ^ (7 * byteLength pre) ->
  readVarint_while fuel (pre ++ encodeVarintLE_groups (S k) v ++ rest) result
    (byteLength pre) (7 * byteLength pre)
  = (result + v * 2 ^ (7 * byteLength pre),
     byteLength pre + byteLength (encodeVarintLE_groups (S k) v) - 1).
Proof.
  revert fuel pre v result.
  induction k as [|k IH]; intros fuel pre v result Hfuel Hlen Hv Hr;
    (destruct fuel as [|fuel]; [lia|]);
    pose proof (byteLength_nonneg pre) as Hpre;
    assert (Hshift : 0 <= 7 * byteLength pre <= 21) by lia;
    rewrite (encodeVarintLE_groups_step _ v);
    destruct (Z.ltb_spec v 128) as [Hsmall|Hbig].
  1, 3: cbn [app];
    pose proof (byteLength_nonneg rest);
    rewrite readVarint_while_last;
    [ rewrite byteAt_app, u8_byte_of_Z, (Z.mod_small v 256) by lia;
      rewrite readVarint_accumulate by lia;
      rewrite (Z.mod_small v 128) by lia;
      f_equal; rewrite byteLength_cons; change (byteLength []) with 0; lia
    | rewrite byteLength_app, byteLength_cons; lia
    | lia
    | rewrite byteAt_app, u8_byte_of_Z, (Z.mod_small v 256) by lia; lia ].
  - change (128 ^ Z.of_nat 1) with 128 in Hv. lia.
  - pose proof (Z.mod_pos_bound v 128 ltac:(lia)) as Hg.
    set (b := byte_of_Z (Z.lor (v mod 128) 128)).
    assert (Hb : u8 b = v mod 128 + 128) by (apply u8_continuation; lia).
    assert (Hnext : byteLength (pre ++ [b]) = byteLength pre + 1)
      by (rewrite byteLength_app; reflexivity).
    assert (Hpow : 2 ^ (7 * (byteLength pre + 1)) = 128 * 2 ^ (7 * byteLength pre)).
    { replace (7 * (byteLength pre + 1)) with (7 + 7 * byteLength pre) by lia.
      rewrite Z.pow_add_r by lia. reflexivity. }
    assert (Hk : 128 ^ Z.of_nat (S (S k)) = 128 * 128 ^ Z.of_nat (S k)).
    { rewrite (Nat2Z.inj_succ (S k)), Z.pow_succ_r by lia. reflexivity. }
    assert (Hquot : 0 <= v / 128 < 128 ^ Z.of_nat (S k)).
    { split; [apply Z.div_pos; lia|]. apply Z.div_lt_upper_bound; lia. }
    pose proof (Z.div_mod v 128 ltac:(lia)) as Hdiv.
    cbn [app].
    rewrite readVarint_while_next;
      [| rewrite byteLength_app, byteLength_cons;
         pose proof (byteLength_nonneg (encodeVarintLE_groups (S k) (v / 128) ++ rest)); lia
       | lia
       | rewrite byteAt_app, Hb; lia ].
    rewrite byteAt_app, Hb.
    rewrite readVarint_accumulate by lia.
    replace ((v mod 128 + 128) mod 128) with (v mod 128)
      by (apply Zmod_unique with 1; lia).
    change (pre ++ b :: encodeVarintLE_groups (S k) (v / 128) ++ rest)
      with (pre ++ [b] ++ encodeVarintLE_groups (S k) (v / 128) ++ rest).
    rewrite app_assoc.
    replace (byteLength pre + 1) with (byteLength (pre ++ [b])) by exact Hnext.
    replace (7 * byteLength pre + 7) with (7 * byteLength (pre ++ [b])) by (rewrite Hnext; lia).
    rewrite IH.
    + rewrite Hnext, Hpow. f_equal.
      * nia.
      * rewrite byteLength_cons. lia.
    + lia.
    + rewrite Hnext. lia.
    + exact Hquot.
    + rewrite Hnext, Hpow. nia.
Qed.

Lemma encodeVarintLE_groups_fuel (k extra : nat) (v : Z) :
  0 <= v < 128 ^ Z.of_nat (S k) ->
  encodeVarintLE_groups (S k + extra) v = encodeVarintLE_groups (S k) v.
Proof.
  revert v.
  induction k as [|k IH]; intros v Hv;
    cbn [Nat.add]; rewrite !(encodeVarintLE_groups_step _ v);
    destruct (Z.ltb_spec v 128) as [Hsmall|Hbig]; try reflexivity.
  - change (128 ^ Z.of_nat 1) with 128 in Hv. lia.
  - f_equal. apply (IH (v / 128)).
    rewrite (Nat2Z.inj_succ (S k)), Z.pow_succ_r in Hv by lia.
    split; [apply Z.div_pos; lia|]. apply Z.div_lt_upper_bound; lia.
Qed.

(** X8: on [0, 2^28) [readVarint] is the exact inverse of the encoding with
    the least significant group first, whatever follows the varint. *)
Theorem readVarint_encodeVarintLE (v : Z) (rest : list byte) :
  0 <= v < 2 ^ 28 ->
  readVarint (encodeVarintLE v ++ rest)
  = {| value := v; nextOffset := byteLength (encodeVarintLE v) |}.
Proof.
  intros Hv. unfold readVarint, encodeVarintLE.
  assert (Hgroups : encodeVarintLE_groups 9 v = encodeVarintLE_groups 4 v)
    by exact (encodeVarintLE_groups_fuel 3 5 v Hv).
  rewrite Hgroups.
  pose proof (readVarint_while_LE 3 9 [] rest v 0) as H.
  cbn [app] in H. change (byteLength []) with 0 in H. change (7 * 0) with 0 in H.
  rewrite H; [| lia | lia | exact Hv | change (2 ^ 0) with 1; lia].
  f_equal; change (2 ^ 0) with 1; lia.
Qed.

(** C2 (code evaluated at the failing input): the canonical encoding of
    128 is the two bytes [81 00], the more significant group first.
    [readVarint] puts the first byte's seven bits at the low end, so it
    decodes them to 1, not 128; the consumed-byte count 2 is right. *)
Theorem readVarint_encodeVarint_128 :
  encodeVarint 128 = [x81; x00]
  /\ readVarint (encodeVarint 128) = {| value := 1; nextOffset := 2 |}.
Proof. split; reflexivity. Qed.

(** ** The tests of the repository *)

Example readVarint_single_byte :
  readVarint [x7f] = {| value := 127; nextOffset := 1 |}.
Proof. reflexivity. Qed.

Example readVarint_multi_byte :
  readVarint [x81; x01] = {| value := 129; nextOffset := 2 |}.
Proof. reflexivity. Qed.

(** The expected value [(1 << 49) + 1] of the test is 131073: the shift
    count is taken modulo 32. *)
Example readVarint_eight_bytes :
  readVarint [x81; x80; x80; x80; x80; x80; x80; x01]
  = {| value := js_shl 1 49 + 1; nextOffset := 8 |}
  /\ js_shl 1 49 + 1 = 131073.
Proof. split; reflexivity. Qed.

Example readVarint_continuation_bits :
  readVarint [x81; x80; x01] = {| value := 16385; nextOffset := 3 |}.
Proof. reflexivity. Qed.

Example parseSerialTypeValue_text `{Platform} :
  parseSerialTypeValue (list_byte_of_string "hello") 13 1 = Normal "hello"%string.
Proof.
  unfold parseSerialTypeValue. simpl.
  rewrite utf8Slice_ascii by reflexivity. reflexivity.
Qed.

Example parseSerialTypeValue_blob `{Platform} :
  parseSerialTypeValue (list_byte_of_string "hello") 14 1 = Normal "68656c6c6f"%string.
Proof. reflexivity. Qed.

Example parseSerialTypeValue_int8 `{Platform} :
  parseSerialTypeValue [x01] 1 1 = Normal "1"%string.
Proof. reflexivity. Qed.

Example parseCellPayload_test `{Platform} :
  parseCellPayload [x02; x01; x01; x01] 0 defaultRowId = Normal ["1"%string].
Proof. reflexivity. Qed.

(** * Further properties *)

(** ** Slices of buffers *)

(** The slice of a buffer between two positions inside it. *)
Lemma subarray_app (pre mid rest : list byte) :
  subarray (pre ++ mid ++ rest) (byteLength pre) (byteLength pre + byteLength mid) = mid.
Proof.
  pose proof (byteLength_nonneg pre). pose proof (byteLength_nonneg mid).
  pose proof (byteLength_nonneg rest).
  unfold subarray, clampIndex. rewrite !byteLength_app.
  ltb_false (byteLength pre) 0.
  ltb_false (byteLength pre + byteLength mid) 0.
  rewrite !Z.min_l by lia.
  replace (byteLength pre + byteLength mid - byteLength pre) with (byteLength mid) by lia.
  unfold byteLength. rewrite !Nat2Z.id.
  rewrite skipn_app, skipn_all, Nat.sub_diag. cbn [skipn app].
  rewrite firstn_app, firstn_all, Nat.sub_diag. cbn [firstn]. apply app_nil_r.
Qed.

Lemma subarrayFrom_app (pre rest : list byte) :
  subarrayFrom (pre ++ rest) (byteLength pre) = rest.
Proof.
  unfold subarrayFrom.
  rewrite <- (app_nil_r rest) at 1. rewrite byteLength_app.
  rewrite (subarray_app pre rest []). reflexivity.
Qed.

Lemma subarrayFrom_zero (buffer : list byte) : subarrayFrom buffer 0 = buffer.
Proof. apply (subarrayFrom_app [] buffer). Qed.

(** ** Reading from the file *)

Lemma getBufferFromOffset_bytes (file : FileHandle) (bufferSize offset index : Z) :
  0 <= offset -> 0 <= index < bufferSize ->
  byteAt (getBufferFromOffset file bufferSize offset) index
  = if offset + index <? byteLength file then byteAt file (offset + index) else 0.
Proof.
  intros Hoff Hi. unfold getBufferFromOffset, byteAt, byteLength.
  set (data := firstn (Z.to_nat bufferSize) (skipn (Z.to_nat offset) file)).
  assert (Hdata : List.length data
                  = Nat.min (Z.to_nat bufferSize) (List.length file - Z.to_nat offset)).
  { unfold data. rewrite length_firstn, length_skipn. reflexivity. }
  destruct (Z.ltb_spec (offset + index) (Z.of_nat (List.length file))) as [Hin|Hout].
  - rewrite app_nth1 by lia.
    unfold data. rewrite nth_firstn.
    replace (Z.to_nat index <? Z.to_nat bufferSize)%nat with true
      by (symmetry; apply Nat.ltb_lt; lia).
    rewrite nth_skipn. f_equal. f_equal. lia.
  - rewrite app_nth2 by lia.
    destruct (Nat.lt_ge_cases (Z.to_nat index - List.length data)
                (Z.to_nat bufferSize - List.length data)) as [Hlt|Hge].
    + rewrite nth_repeat. reflexivity.
    + rewrite nth_overflow by (rewrite repeat_length; lia). reflexivity.
Qed.

(** X1: for a non-negative offset and size, [getBufferFromOffset] returns
    exactly [bufferSize] bytes: the byte at [index] is the byte of the file
    at [offset + index] where the file has one, and zero past the end of
    the file. *)
Theorem getBufferFromOffset_reads_file (file : FileHandle) (bufferSize offset : Z) :
  0 <= offset -> 0 <= bufferSize ->
  byteLength (getBufferFromOffset file bufferSize offset) = bufferSize
  /\ forall index, 0 <= index < bufferSize ->
       byteAt (getBufferFromOffset file bufferSize offset) index
       = if offset + index <? byteLength file then byteAt file (offset + index) else 0.
Proof.
  intros Hoff Hsize. split.
  - unfold byteLength. rewrite getBufferFromOffset_length. lia.
  - intros index Hindex. apply getBufferFromOffset_bytes; assumption.
Qed.

Lemma getBufferFromOffset_reads_file_witness :
  byteLength (getBufferFromOffset fileHeader4096 12 94) = 12
  /\ forall index, 0 <= index < 12 ->
       byteAt (getBufferFromOffset fileHeader4096 12 94) index
       = if 94 + index <? byteLength fileHeader4096
         then byteAt fileHeader4096 (94 + index) else 0.
Proof. apply (getBufferFromOffset_reads_file fileHeader4096 12 94); lia. Defined.

Lemma getBufferFromOffset_firstn (file : FileHandle) (bufferSize : Z) :
  getBufferFromOffset file bufferSize 0
  = getBufferFromOffset (firstn (Z.to_nat bufferSize) file) bufferSize 0.
Proof.
  unfold getBufferFromOffset. cbn [Z.to_nat skipn].
  rewrite firstn_firstn, Nat.min_id. reflexivity.
Qed.

Lemma getBufferFromOffset_exact (bytes rest : list byte) (bufferSize : Z) :
  byteLength bytes = bufferSize ->
  getBufferFromOffset (bytes ++ rest) bufferSize 0 = bytes.
Proof.
  unfold byteLength. intros Hlen. unfold getBufferFromOffset. cbn [Z.to_nat skipn].
  replace (Z.to_nat bufferSize) with (List.length bytes) by lia.
  rewrite firstn_app, firstn_all, Nat.sub_diag. cbn [firstn].
  rewrite app_nil_r, Nat.sub_diag. cbn [repeat]. apply app_nil_r.
Qed.

Lemma getBufferFromOffset_at (pre bytes rest : list byte) (bufferSize : Z) :
  byteLength bytes = bufferSize ->
  getBufferFromOffset (pre ++ bytes ++ rest) bufferSize (byteLength pre) = bytes.
Proof.
  unfold byteLength. intros Hlen. unfold getBufferFromOffset.
  rewrite Nat2Z.id, skipn_app, skipn_all, Nat.sub_diag. cbn [skipn app].
  replace (Z.to_nat bufferSize) with (List.length bytes) by lia.
  rewrite firstn_app, firstn_all, Nat.sub_diag. cbn [firstn].
  rewrite app_nil_r, Nat.sub_diag. cbn [repeat]. apply app_nil_r.
Qed.

(** ** parseDatabaseFileHeader *)

(** X2: the file header is decided by the first 100 bytes of the file;
    whatever follows them has no influence on any field. *)
Theorem parseDatabaseFileHeader_reads_100_bytes (file : FileHandle) :
  parseDatabaseFileHeader file = parseDatabaseFileHeader (firstn 100 file).
Proof.
  unfold parseDatabaseFileHeader.
  rewrite (getBufferFromOffset_firstn file maxByteSize). reflexivity.
Qed.

Lemma u8_roundtrip (n : Z) : isU8 n -> u8 (byte_of_Z n) = n.
Proof. intros Hn. rewrite u8_byte_of_Z. apply Z.mod_small. exact Hn. Qed.

Lemma u16_roundtrip (n : Z) :
  isU16 n -> u8 (byte_of_Z (n / 256)) * 256 + u8 (byte_of_Z n) = n.
Proof.
  unfold isU16. intros Hn. rewrite !u8_byte_of_Z.
  rewrite (Z.mod_small (n / 256)) by (split; [apply Z.div_pos; lia | apply Z.div_lt_upper_bound; lia]).
  pose proof (Z.div_mod n 256 ltac:(lia)). lia.
Qed.

Lemma u32_roundtrip (n : Z) :
  isU32 n ->
  ((u8 (byte_of_Z (n / 16777216)) * 256 + u8 (byte_of_Z (n / 65536))) * 256
   + u8 (byte_of_Z (n / 256))) * 256 + u8 (byte_of_Z n) = n.
Proof.
  unfold isU32. intros Hn. rewrite !u8_byte_of_Z.
  Z.div_mod_to_equations. lia.
Qed.

(** Take a string, or a list, of known length apart into its elements. *)
Ltac split_string s H :=
  repeat (destruct s as [|? s];
          [ try discriminate H
          | cbn [String.length] in H; try discriminate H; try apply eq_add_S in H ]).

Ltac split_list l H :=
  repeat (destruct l as [|? l];
          [ try discriminate H
          | cbn [List.length] in H; try discriminate H; try apply eq_add_S in H ]).

(** X3: header round trip.  When every field fits the bytes the format
    gives it, parsing the 100 encoded bytes, followed by anything, gives
    back all 23 fields: the offsets and widths read by
    [parseDatabaseFileHeader] neither overlap nor lose a byte. *)
Theorem parseDatabaseFileHeader_round_trip (h : DatabaseFileHeader) (rest : list byte) :
  wellFormedHeader h ->
  parseDatabaseFileHeader (encodeDatabaseFileHeader h ++ rest) = h.
Proof.
  destruct h as [magic pageSize writeVersion readVersion reservedSpace maxFraction
                 minFraction leafFraction changeCounter pages trunk freePages cookie
                 format cacheSize largestRoot encoding userVersion vacuum application
                 reserved validFor sqliteVersion].
  unfold wellFormedHeader. cbn [header_string database_page_size file_format_write_version
    file_format_read_version reserved_space_at_end_of_each_page
    maximum_embedded_payload_fraction minimum_embedded_payload_fraction leaf_payload_fraction
    file_change_counter number_of_pages first_freeList_trunk_page total_freeList_pages
    schema_cookie schema_format_number default_page_cache_size
    largest_root_b_tree_page_number database_text_encoding user_version
    incremental_vacuum_mode application_ID reserved_for_expansion version_valid_for_number
    sqlite_version_number].
  intros (Hmagic & HpageSize & HwriteVersion & HreadVersion & HreservedSpace & HmaxFraction
          & HminFraction & HleafFraction & HchangeCounter & Hpages & Htrunk & HfreePages
          & Hcookie & Hformat & HcacheSize & HlargestRoot & Hencoding & HuserVersion
          & Hvacuum & Happlication & Hreserved & HvalidFor & HsqliteVersion).
  split_string magic Hmagic.
  split_list reserved Hreserved.
  unfold parseDatabaseFileHeader.
  rewrite getBufferFromOffset_exact by reflexivity.
  unfold fromCharCode, slice, subarray, clampIndex, byteLength,
    getUint8, getUint16, getUint32, byteAt.
  cbn -[u8 byte_of_Z Z.div byte_of_ascii ascii_of_byte].
  repeat match goal with
         | |- context [Pos.to_nat ?p] =>
             let n := eval compute in (Pos.to_nat p) in change (Pos.to_nat p) with n
         end.
  cbn -[u8 byte_of_Z Z.div byte_of_ascii ascii_of_byte].
  rewrite !ascii_of_byte_of_ascii.
  rewrite !u32_roundtrip, !u16_roundtrip, !u8_roundtrip by assumption.
  reflexivity.
Qed.

Lemma parseDatabaseFileHeader_round_trip_witness :
  parseDatabaseFileHeader
    (encodeDatabaseFileHeader (parseDatabaseFileHeader fileHeader4096) ++ [xff; xff])
  = parseDatabaseFileHeader fileHeader4096.
Proof.
  apply (parseDatabaseFileHeader_round_trip (parseDatabaseFileHeader fileHeader4096)).
  unfold wellFormedHeader, isU8, isU16, isU32.
  repeat split; vm_compute; first [reflexivity | discriminate].
Defined.

(** ** parsePageHeader *)

(** X4: page-header round trip at any position.  Twelve encoded bytes
    placed anywhere in the file are parsed back, at that offset, into the
    fields they were made from; the header size returned is 8 when the type
    is 13 or the top byte of the stored right-most pointer is 10, else 12. *)
Theorem parsePageHeader_round_trip (pre rest : list byte) (h : BTreePageHeaderInfo) :
  wellFormedPageHeader h ->
  parsePageHeader (pre ++ encodePageHeader h ++ rest) (byteLength pre) = h.
Proof.
  destruct h as [tables pageType freeBlock cells contentStart fragmented rightMost size].
  unfold wellFormedPageHeader.
  cbn [number_of_tables b_tree_page_type start_of_first_freeBlock number_of_cells
       start_of_cell_content_area number_of_fragmented_free_bytes right_most_pointer headerSize].
  intros (HpageType & HfreeBlock & Hcells & HcontentStart & Hfragmented & HrightMost
          & Htables & Hsize).
  unfold parsePageHeader.
  rewrite getBufferFromOffset_at by reflexivity.
  unfold getInt8, getUint8, getUint16, getUint32, byteAt, encodePageHeader.
  cbn -[u8 byte_of_Z Z.div Z.ltb Z.eqb Z.sub].
  repeat match goal with
         | |- context [Pos.to_nat ?p] =>
             let n := eval compute in (Pos.to_nat p) in change (Pos.to_nat p) with n
         end.
  cbn -[u8 byte_of_Z Z.div Z.ltb Z.eqb Z.sub].
  rewrite !u32_roundtrip, !u16_roundtrip by assumption.
  rewrite (u8_roundtrip pageType), (u8_roundtrip fragmented) by assumption.
  assert (Htop : isU8 ((rightMost + 1) / 16777216)).
  { unfold isU8, isU32 in *.
    split; [apply Z.div_pos; lia | apply Z.div_lt_upper_bound; lia]. }
  rewrite (u8_roundtrip _ Htop).
  assert (Hsigned : ((if (rightMost + 1) / 16777216 <? 128
                      then (rightMost + 1) / 16777216
                      else (rightMost + 1) / 16777216 - 256) =? 10)
                    = ((rightMost + 1) / 16777216 =? 10)).
  { unfold isU8 in Htop.
    destruct (Z.ltb_spec ((rightMost + 1) / 16777216) 128); [reflexivity|].
    destruct (Z.eqb_spec ((rightMost + 1) / 16777216 - 256) 10);
      destruct (Z.eqb_spec ((rightMost + 1) / 16777216) 10); try lia; reflexivity. }
  rewrite Hsigned, <- Hsize, Htables.
  f_equal. lia.
Qed.

Lemma parsePageHeader_round_trip_witness :
  parsePageHeader
    (fileHeader4096 ++ encodePageHeader (parsePageHeader schemaFile 100) ++ [x00])
    (byteLength fileHeader4096)
  = parsePageHeader schemaFile 100.
Proof.
  apply (parsePageHeader_round_trip fileHeader4096 [x00] (parsePageHeader schemaFile 100)).
  unfold wellFormedPageHeader, isU8, isU16, isU32.
  repeat split; vm_compute; first [reflexivity | discriminate].
Defined.

(** ** getCellPointerArray *)

Lemma cellPointerLoop_values (iterations : nat) :
  forall (pointerBuffer : list byte) (c : Z) (pointerArray : list Z),
    (c + Z.of_nat iterations) * 2 <= byteLength pointerBuffer ->
    cellPointerLoop iterations pointerBuffer c pointerArray
    = Normal (pointerArray
              ++ map (fun k : nat => getUint16 pointerBuffer ((c + Z.of_nat k) * 2))
                   (seq 0 iterations)).
Proof.
  induction iterations as [|iterations IH]; intros pointerBuffer c pointerArray Hlen.
  - cbn. rewrite app_nil_r. reflexivity.
  - cbn [cellPointerLoop].
    replace (c * 2 + 2 <=? byteLength pointerBuffer) with true
      by (symmetry; apply Z.leb_le; lia).
    rewrite IH by lia.
    cbn [seq map]. rewrite <- app_assoc. cbn [app].
    rewrite Z.add_0_r. do 3 f_equal.
    rewrite <- seq_shift, map_map.
    apply map_ext. intros k. do 2 f_equal. lia.
Qed.

Lemma getUint16_of_file (file : FileHandle) (bufferSize offset index : Z) :
  0 <= offset -> 0 <= index -> index + 2 <= bufferSize ->
  getUint16 (getBufferFromOffset file bufferSize offset) index
  = getUint16 (getBufferFromOffset file 2 (offset + index)) 0.
Proof.
  intros Hoff Hi Hsize. unfold getUint16.
  rewrite !getBufferFromOffset_bytes by lia.
  replace (offset + index + 0) with (offset + index) by lia.
  replace (offset + index + (0 + 1)) with (offset + (index + 1)) by lia.
  reflexivity.
Qed.

Lemma headerSize_cases (file : FileHandle) (offset : Z) :
  headerSize (parsePageHeader file offset) = 8 \/ headerSize (parsePageHeader file offset) = 12.
Proof.
  rewrite parsePageHeader_headerSize.
  destruct (_ || _); [left|right]; reflexivity.
Qed.

(** X5: [getCellPointerArray] never throws.  At a non-negative offset it
    returns one pointer per cell of the page header found there, and the
    pointer of cell [k] is the big-endian two-byte integer of the file at
    [offset + headerSize + 2 * k] (zero where the file has ended). *)
Theorem getCellPointerArray_reads_pointers (file : FileHandle) (offset : Z) :
  0 <= offset ->
  getCellPointerArray file offset
  = Normal (map (fun k : nat =>
                   getUint16 (getBufferFromOffset file 2
                                (offset + headerSize (parsePageHeader file offset)
                                 + 2 * Z.of_nat k)) 0)
              (seq 0 (Z.to_nat (number_of_cells (parsePageHeader file offset))))).
Proof.
  intros Hoff. unfold getCellPointerArray.
  set (h := parsePageHeader file offset).
  assert (Hcells : 0 <= number_of_cells h < 65536) by apply getUint16_range.
  assert (Hsize : headerSize h = 8 \/ headerSize h = 12) by apply headerSize_cases.
  rewrite cellPointerLoop_values
    by (unfold byteLength; rewrite getBufferFromOffset_length; lia).
  cbn [app]. f_equal.
  apply map_ext_in. intros k Hk. apply in_seq in Hk.
  rewrite getUint16_of_file by lia.
  do 2 f_equal. lia.
Qed.

Lemma getCellPointerArray_reads_pointers_witness :
  getCellPointerArray strayPointerFile 100 = Normal [4024; 65535; 4060].
Proof.
  rewrite (getCellPointerArray_reads_pointers strayPointerFile 100) by lia.
  vm_compute. reflexivity.
Defined.

(** ** readVarint *)

Lemma readVarint_while_frame (todo : list byte) :
  forall (fuel : nat) (done rest : list byte) (last : byte) (result shift : Z),
    Forall (fun b => 128 <= u8 b) todo ->
    u8 last < 128 ->
    byteLength done + byteLength todo < 8 ->
    (List.length todo < fuel)%nat ->
    readVarint_while fuel (done ++ todo ++ last :: rest) result (byteLength done) shift
    = readVarint_while fuel (done ++ todo ++ [last]) result (byteLength done) shift
    /\ snd (readVarint_while fuel (done ++ todo ++ last :: rest) result (byteLength done) shift)
       = byteLength done + byteLength todo.
Proof.
  induction todo as [|b todo IH]; intros fuel done rest last result shift Hall Hlast Hlen Hfuel;
    (destruct fuel as [|fuel]; [cbn in Hfuel; lia|]);
    pose proof (byteLength_nonneg done) as Hdone.
  - cbn [app]. change (byteLength []) with 0 in *.
    assert (Hstop : forall tail,
               readVarint_while (S fuel) (done ++ last :: tail) result (byteLength done) shift
               = (js_or result (js_shl (js_and (u8 last) 0x7f) shift), byteLength done)).
    { intros tail. pose proof (byteLength_nonneg tail).
      rewrite readVarint_while_last.
      - rewrite byteAt_app. reflexivity.
      - rewrite byteLength_app, byteLength_cons. lia.
      - lia.
      - rewrite byteAt_app. exact Hlast. }
    rewrite !Hstop. split; [reflexivity|]. cbn [snd]. lia.
  - inversion Hall as [|? ? Hb Hrest]; subst.
    rewrite byteLength_cons in Hlen.
    pose proof (byteLength_nonneg todo) as Htodo.
    cbn [app].
    assert (Hgo : forall tail,
               readVarint_while (S fuel) (done ++ b :: tail) result (byteLength done) shift
               = readVarint_while fuel ((done ++ [b]) ++ tail)
                   (js_or result (js_shl (js_and (u8 b) 0x7f) shift))
                   (byteLength (done ++ [b])) (shift + 7)).
    { intros tail. pose proof (byteLength_nonneg tail).
      rewrite readVarint_while_next.
      - rewrite byteAt_app, <- app_assoc, byteLength_app. reflexivity.
      - rewrite byteLength_app, byteLength_cons. lia.
      - lia.
      - rewrite byteAt_app. exact Hb. }
    rewrite !Hgo.
    destruct (IH fuel (done ++ [b]) rest last
                (js_or result (js_shl (js_and (u8 b) 127) shift)) (shift + 7))
      as [Hsame Hindex]; try assumption.
    + rewrite byteLength_app, byteLength_cons. change (byteLength []) with 0. lia.
    + cbn [List.length] in Hfuel. lia.
    + split; [exact Hsame|].
      rewrite Hindex, byteLength_app, !byteLength_cons. change (byteLength []) with 0. lia.
Qed.

(** X6: [readVarint] stops at the first byte whose high bit is clear.  After
    fewer than eight bytes with the high bit set, such a byte ends the
    varint: the bytes behind it change neither the value nor the count,
    and the count is the number of bytes up to and including it. *)
Theorem readVarint_stops_at_terminator (continuation : list byte) (last : byte) (rest : list byte) :
  Forall (fun b => 128 <= u8 b) continuation ->
  u8 last < 128 ->
  byteLength continuation < 8 ->
  readVarint (continuation ++ last :: rest) = readVarint (continuation ++ [last])
  /\ nextOffset (readVarint (continuation ++ last :: rest)) = byteLength continuation + 1.
Proof.
  intros Hall Hlast Hlen.
  assert (Hfuel : (List.length continuation < 9)%nat) by (unfold byteLength in Hlen; lia).
  destruct (readVarint_while_frame continuation 9 [] rest last 0 0 Hall Hlast
              ltac:(change (byteLength []) with 0; lia) Hfuel) as [Hsame Hindex].
  cbn [app] in Hsame, Hindex. change (byteLength []) with 0 in Hsame, Hindex.
  unfold readVarint. rewrite <- Hsame.
  split; [reflexivity|].
  destruct (readVarint_while 9 (continuation ++ last :: rest) 0 0 0) as [result index].
  cbn [snd nextOffset] in *. lia.
Qed.

Lemma readVarint_stops_at_terminator_witness :
  readVarint ([x81; x80] ++ x01 :: [xff; xff]) = readVarint ([x81; x80] ++ [x01])
  /\ nextOffset (readVarint ([x81; x80] ++ x01 :: [xff; xff])) = byteLength [x81; x80] + 1.
Proof.
  apply (readVarint_stops_at_terminator [x81; x80] x01 [xff; xff]).
  - repeat constructor; vm_compute; discriminate.
  - reflexivity.
  - reflexivity.
Defined.

Lemma readVarint_while_runs_out (fuel : nat) (buffer : list byte) (result index shift : Z) :
  0 <= index <= byteLength buffer ->
  byteLength buffer <= 8 ->
  byteLength buffer - index < Z.of_nat fuel ->
  (forall i, index <= i < byteLength buffer -> 128 <= byteAt buffer i) ->
  snd (readVarint_while fuel buffer result index shift) = byteLength buffer.
Proof.
  revert result index shift.
  induction fuel as [|fuel IH]; intros result index shift Hi Hlen Hf Hc; [lia|].
  destruct (Z_lt_le_dec index (byteLength buffer)) as [Hin|Hout].
  - rewrite readVarint_while_next by (try apply Hc; lia).
    apply IH; try lia. intros i Hi'. apply Hc. lia.
  - cbn [readVarint_while].
    ltb_false index (byteLength buffer). cbn [andb snd]. lia.
Qed.

(** X7: when the slice ends inside a varint (at most eight bytes, all with
    the high bit set), [readVarint] still returns, and its consumed-byte
    count is one more than the slice has bytes. *)
Theorem readVarint_runs_out_of_input (buffer : list byte) :
  byteLength buffer <= 8 ->
  Forall (fun b => 128 <= u8 b) buffer ->
  nextOffset (readVarint buffer) = byteLength buffer + 1.
Proof.
  intros Hlen Hall. unfold readVarint.
  pose proof (byteLength_nonneg buffer) as Hnonneg.
  pose proof (readVarint_while_runs_out 9 buffer 0 0 0) as Hrun.
  destruct (readVarint_while 9 buffer 0 0 0) as [result index]. cbn [snd nextOffset] in *.
  rewrite Hrun; try lia.
  intros i Hi. unfold byteAt.
  rewrite Forall_forall in Hall. apply Hall.
  apply nth_In. unfold byteLength in Hi. lia.
Qed.

Lemma readVarint_runs_out_of_input_witness :
  nextOffset (readVarint [x80; xff]) = byteLength [x80; xff] + 1.
Proof.
  apply (readVarint_runs_out_of_input [x80; xff]).
  - vm_compute. discriminate.
  - repeat constructor; vm_compute; discriminate.
Defined.

Lemma readVarint_encodeVarintLE_witness :
  readVarint (encodeVarintLE 300 ++ [xff])
  = {| value := 300; nextOffset := byteLength (encodeVarintLE 300) |}.
Proof.
  apply (readVarint_encodeVarintLE 300 [xff]).
  split; [lia | reflexivity].
Defined.

(** ** getSerialTypeSize and parseSerialTypeValue *)

Lemma getSerialTypeSize_nonneg (serialType : Z) : 0 <= getSerialTypeSize serialType.
Proof.
  unfold getSerialTypeSize.
  repeat match goal with
         | |- context [if ?b then _ else _] =>
             let Hb := fresh "Hb" in
             destruct b eqn:Hb;
             [ try lia;
               apply andb_prop in Hb as [Hb _]; apply Z.geb_le in Hb;
               apply Z.div_pos; lia
             | ]
         end.
  lia.
Qed.

Lemma getSerialTypeSize_nothing_stored (serialType : Z) :
  serialType <= 0 \/ 8 <= serialType <= 11 -> getSerialTypeSize serialType = 0.
Proof.
  intros Hs. unfold getSerialTypeSize.
  repeat match goal with
         | |- context [serialType =? ?k] => destruct (Z.eqb_spec serialType k); try lia
         end;
    try reflexivity.
  cbn [orb].
  replace (serialType >=? 12) with false by (symmetry; rewrite Z.geb_leb; apply Z.leb_gt; lia).
  replace (serialType >=? 13) with false by (symmetry; rewrite Z.geb_leb; apply Z.leb_gt; lia).
  reflexivity.
Qed.

(** X9: the size of a serial type is never negative, whatever number the
    varint gave; it is zero for every code that stores nothing: zero and
    the negative numbers, the constants 8 and 9 and the reserved codes 10
    and 11. *)
Theorem getSerialTypeSize_never_negative :
  (forall serialType, 0 <= getSerialTypeSize serialType)
  /\ (forall serialType,
        serialType <= 0 \/ 8 <= serialType <= 11 -> getSerialTypeSize serialType = 0).
Proof.
  split.
  - apply getSerialTypeSize_nonneg.
  - apply getSerialTypeSize_nothing_stored.
Qed.

Lemma getSerialTypeSize_never_negative_witness :
  getSerialTypeSize (-5) = 0 /\ getSerialTypeSize 11 = 0.
Proof.
  destruct getSerialTypeSize_never_negative as [_ Hzero].
  split; apply Hzero; lia.
Defined.

Lemma readIntBE_throws (buffer : list byte) (width : Z) :
  readIntBE buffer 0 width = Throw RangeError <-> byteLength buffer < width.
Proof.
  unfold readIntBE. cbn [Z.add].
  destruct (Z.leb_spec width (byteLength buffer)); split; intros Hx;
    try discriminate; try lia; reflexivity.
Qed.

Lemma bind_throws {A B : Type} (c : completion A) (f : A -> B) (e : exn) :
  (v <- c ;; Normal (f v)) = Throw e <-> c = Throw e.
Proof.
  destruct c as [a|e']; cbn [bind]; split; intros Hx; try discriminate;
    injection Hx as ->; reflexivity.
Qed.

(** X10: [parseSerialTypeValue] throws, a [RangeError], exactly when the
    serial type is one of the fixed-width codes 1 to 7 and the buffer has
    fewer bytes than that width.  TEXT, BLOB, the constants and every other
    code never throw, whatever the buffer. *)
Theorem parseSerialTypeValue_throws_exactly `{Platform} (buffer : list byte) (serialType rowId : Z) :
  parseSerialTypeValue buffer serialType rowId = Throw RangeError
  <-> (1 <= serialType <= 7 /\ byteLength buffer < getSerialTypeSize serialType).
Proof.
  destruct (Z_le_gt_dec 1 serialType) as [Hlow|Hlow];
    [destruct (Z_le_gt_dec serialType 7) as [Hhigh|Hhigh]|].
  - assert (Hcases : serialType = 1 \/ serialType = 2 \/ serialType = 3 \/ serialType = 4
                     \/ serialType = 5 \/ serialType = 6 \/ serialType = 7) by lia.
    destruct Hcases as [-> | [-> | [-> | [-> | [-> | [-> | ->]]]]]];
      unfold parseSerialTypeValue; cbn -[readIntBE integerToString byteLength];
      try (rewrite bind_throws, readIntBE_throws; cbn; intuition lia).
    unfold readDoubleBE_toString.
    change (getSerialTypeSize 7) with 8.
    destruct (Z.leb_spec 8 (byteLength buffer)); split; intros Hx;
      [discriminate | exfalso; lia | lia | reflexivity].
  - split; [|intros [Hrange _]; exfalso; lia]. unfold parseSerialTypeValue.
    repeat match goal with
           | |- context [serialType =? ?k] =>
               destruct (Z.eqb_spec serialType k); [exfalso; lia|]
           end.
    repeat match goal with
           | |- context [if ?b then _ else _] => destruct b
           end; intros Hx; discriminate.
  - split; [|intros [Hrange _]; exfalso; lia]. unfold parseSerialTypeValue.
    repeat match goal with
           | |- context [serialType =? ?k] =>
               destruct (Z.eqb_spec serialType k); [exfalso; lia|]
           end.
    repeat match goal with
           | |- context [if ?b then _ else _] => destruct b
           end; intros Hx; discriminate.
Qed.

Lemma parseSerialTypeValue_throws_exactly_witness :
  @parseSerialTypeValue asciiPlatform [x01] 2 0 = Throw RangeError.
Proof.
  apply (@parseSerialTypeValue_throws_exactly asciiPlatform [x01] 2 0).
  split; [lia | reflexivity].
Defined.

(** ** parseCellPayload *)

(** Every iteration moves as many bytes from the counter to the offset. *)
Lemma headerLoop_conserves (fuel : nat) (buffer : list byte) (s : HeaderLoop) :
  offset (headerLoop fuel buffer s) + headerRemainingBytes (headerLoop fuel buffer s)
  = offset s + headerRemainingBytes s.
Proof.
  revert s. induction fuel as [|fuel IH]; intros s; cbn [headerLoop]; [reflexivity|].
  destruct (headerRemainingBytes s >? 0); [|reflexivity].
  rewrite IH. unfold headerLoop_body. cbn [offset headerRemainingBytes]. lia.
Qed.

Lemma headerLoop_overshoot (fuel : nat) (buffer : list byte) (s : HeaderLoop) :
  -8 <= headerRemainingBytes s ->
  -8 <= headerRemainingBytes (headerLoop fuel buffer s).
Proof.
  revert s. induction fuel as [|fuel IH]; intros s Hs; cbn [headerLoop]; [exact Hs|].
  destruct (headerRemainingBytes s >? 0) eqn:Hpos; [|exact Hs].
  apply IH. rewrite Z.gtb_ltb in Hpos. apply Z.ltb_lt in Hpos.
  pose proof (readVarint_nextOffset (subarrayFrom buffer (offset s))).
  unfold headerLoop_body. cbn [headerRemainingBytes]. lia.
Qed.

(** X11: the header-region loop ends at most 8 bytes past the declared end
    of the header.  Entered with a counter of at least -8, it leaves with
    the counter between -8 and 0, and the offset has advanced by exactly
    what the counter lost: the values are read from
    [offset + headerRemainingBytes] plus an overshoot of 0 to 8 bytes. *)
Theorem headerLoop_overshoots_at_most_8 (buffer : list byte) (s : HeaderLoop) :
  -8 <= headerRemainingBytes s ->
  -8 <= headerRemainingBytes (headerLoop (Z.to_nat (headerRemainingBytes s)) buffer s) <= 0
  /\ offset (headerLoop (Z.to_nat (headerRemainingBytes s)) buffer s)
     = offset s + headerRemainingBytes s
       - headerRemainingBytes (headerLoop (Z.to_nat (headerRemainingBytes s)) buffer s).
Proof.
  intros Hs.
  pose proof (headerLoop_conserves (Z.to_nat (headerRemainingBytes s)) buffer s) as Hsum.
  pose proof (headerLoop_overshoot (Z.to_nat (headerRemainingBytes s)) buffer s Hs) as Hlow.
  destruct (headerLoop_iterations (Z.to_nat (headerRemainingBytes s)) buffer s ltac:(lia))
    as (n & Hn & Hexit & _ & Hextra & _).
  replace (Z.to_nat (headerRemainingBytes s))
    with (n + (Z.to_nat (headerRemainingBytes s) - n))%nat in * by lia.
  rewrite Hextra in *. lia.
Qed.

Lemma headerLoop_overshoots_at_most_8_witness :
  -8 <= headerRemainingBytes
          (headerLoop (Z.to_nat (headerRemainingBytes (headerLoop_init [x03; x81; x01] 0)))
             [x03; x81; x01] (headerLoop_init [x03; x81; x01] 0)) <= 0
  /\ offset (headerLoop (Z.to_nat (headerRemainingBytes (headerLoop_init [x03; x81; x01] 0)))
               [x03; x81; x01] (headerLoop_init [x03; x81; x01] 0))
     = offset (headerLoop_init [x03; x81; x01] 0)
       + headerRemainingBytes (headerLoop_init [x03; x81; x01] 0)
       - headerRemainingBytes
           (headerLoop (Z.to_nat (headerRemainingBytes (headerLoop_init [x03; x81; x01] 0)))
              [x03; x81; x01] (headerLoop_init [x03; x81; x01] 0)).
Proof.
  apply (headerLoop_overshoots_at_most_8 [x03; x81; x01] (headerLoop_init [x03; x81; x01] 0)).
  vm_compute. discriminate.
Defined.

(** X12: asked to decode a record at or beyond the end of the buffer,
    [parseCellPayload] does not fail: it returns a record without
    columns. *)
Theorem parseCellPayload_beyond_end `{Platform} (buffer : list byte) (offset0 rowId : Z) :
  byteLength buffer <= offset0 ->
  parseCellPayload buffer offset0 rowId = Normal [].
Proof.
  intros Hend. unfold parseCellPayload, headerLoop_init.
  rewrite (subarrayFrom_beyond _ _ Hend). reflexivity.
Qed.

Lemma parseCellPayload_beyond_end_witness :
  @parseCellPayload asciiPlatform [x02; x01; x05] 3 defaultRowId = Normal [].
Proof.
  apply (@parseCellPayload_beyond_end asciiPlatform [x02; x01; x05] 3 defaultRowId).
  vm_compute. discriminate.
Defined.

(** The header-region loop over serial types of one byte each: it collects
    them in order and stops exactly behind them. *)
Lemma headerLoop_serialTypes (types : list Z) :
  forall (fuel : nat) (pre rest : list byte) (s : HeaderLoop),
    Forall (fun t => 0 <= t < 128) types ->
    (List.length types <= fuel)%nat ->
    offset s = byteLength pre ->
    headerRemainingBytes s = Z.of_nat (List.length types) ->
    headerLoop fuel (pre ++ map byte_of_Z types ++ rest) s
    = {| serialTypes := serialTypes s ++ types;
         offset := offset s + Z.of_nat (List.length types);
         headerRemainingBytes := 0 |}.
Proof.
  induction types as [|t types IH]; intros fuel pre rest s Htypes Hfuel Hoff Hrem.
  - rewrite headerLoop_done by (rewrite Hrem; simpl; lia).
    destruct s as [sts off rem]. cbn in *. subst rem.
    rewrite app_nil_r, Z.add_0_r. reflexivity.
  - destruct fuel as [|fuel]; [cbn in Hfuel; lia|].
    inversion Htypes as [|? ? Ht Hrest]; subst.
    rewrite headerLoop_step by (rewrite Hrem; cbn [List.length]; lia).
    assert (Hbody : headerLoop_body (pre ++ map byte_of_Z (t :: types) ++ rest) s
                    = {| serialTypes := serialTypes s ++ [t];
                         offset := offset s + 1;
                         headerRemainingBytes := headerRemainingBytes s - 1 |}).
    { unfold headerLoop_body. rewrite Hoff, subarrayFrom_app.
      cbn [map app]. rewrite readVarint_one_byte
        by (rewrite u8_byte_of_Z, Z.mod_small by lia; lia).
      cbn [value nextOffset]. rewrite u8_byte_of_Z, Z.mod_small by lia. reflexivity. }
    rewrite Hbody.
    change (pre ++ map byte_of_Z (t :: types) ++ rest)
      with (pre ++ [byte_of_Z t] ++ map byte_of_Z types ++ rest).
    rewrite app_assoc.
    rewrite IH.
    + cbn [serialTypes offset headerRemainingBytes List.length].
      rewrite <- app_assoc. cbn [app]. f_equal. lia.
    + exact Hrest.
    + cbn [List.length] in Hfuel. lia.
    + cbn [offset]. rewrite byteLength_app, Hoff. reflexivity.
    + cbn [headerRemainingBytes]. rewrite Hrem. cbn [List.length]. lia.
Qed.

(** The value loop over columns stored one after the other: each value is
    decoded from the bytes of its own column. *)
Lemma valueLoop_columns `{Platform} (columns : list Column) :
  forall (pre rest : list byte) (rowId : Z) (data : list string),
    Forall wellFormedColumn columns ->
    valueLoop (pre ++ List.concat (map columnBytes columns) ++ rest) (map columnType columns)
      (byteLength pre) rowId data
    = (values <- traverse (decodeColumn rowId) columns ;; Normal (data ++ values)).
Proof.
  induction columns as [|[serialType bytes] columns IH]; intros pre rest rowId data Hwf.
  - cbn. rewrite app_nil_r. reflexivity.
  - inversion Hwf as [|? ? [Hst Hlen] Hrest]; subst. cbn [columnType columnBytes] in *.
    cbn [map columnType columnBytes List.concat valueLoop traverse].
    rewrite <- Hlen, <- app_assoc, subarray_app.
    unfold decodeColumn at 1. cbn [columnType columnBytes].
    destruct (parseSerialTypeValue bytes serialType rowId) as [v|e]; cbn [bind]; [|reflexivity].
    rewrite app_assoc.
    replace (byteLength pre + byteLength bytes) with (byteLength (pre ++ bytes))
      by apply byteLength_app.
    rewrite IH by exact Hrest.
    destruct (traverse (decodeColumn rowId) columns) as [values|e]; cbn [bind]; [|reflexivity].
    rewrite <- app_assoc. reflexivity.
Qed.

Lemma parseCellPayload_encodeRecord_at `{Platform}
  (pre rest : list byte) (columns : list Column) (rowId : Z) :
  Z.of_nat (List.length columns) < 127 ->
  Forall wellFormedColumn columns ->
  parseCellPayload (pre ++ encodeRecord columns ++ rest) (byteLength pre) rowId
  = traverse (decodeColumn rowId) columns.
Proof.
  intros Hcount Hwf.
  remember (Z.of_nat (List.length columns)) as n eqn:Hndef.
  assert (Hn : 0 <= n) by lia.
  unfold parseCellPayload.
  assert (Hinit : headerLoop_init (pre ++ encodeRecord columns ++ rest) (byteLength pre)
                  = {| serialTypes := []; offset := byteLength pre + 1;
                       headerRemainingBytes := n |}).
  { unfold headerLoop_init. rewrite subarrayFrom_app.
    unfold encodeRecord. cbn [app]. rewrite <- Hndef.
    rewrite readVarint_one_byte by (rewrite u8_byte_of_Z, Z.mod_small by lia; lia).
    cbn [value nextOffset]. rewrite u8_byte_of_Z, Z.mod_small by lia.
    f_equal. lia. }
  rewrite Hinit. cbv zeta. cbn [headerRemainingBytes].
  unfold encodeRecord. rewrite <- Hndef.
  replace (pre ++ ([byte_of_Z (1 + n)] ++ map byte_of_Z (map columnType columns) ++ List.concat (map columnBytes columns)) ++ rest)
    with ((pre ++ [byte_of_Z (1 + n)]) ++ map byte_of_Z (map columnType columns) ++ (List.concat (map columnBytes columns) ++ rest))
    by (rewrite <- !app_assoc; reflexivity).
  rewrite headerLoop_serialTypes.
  - cbn [serialTypes offset app].
    rewrite !length_map, <- Hndef.
    replace ((pre ++ [byte_of_Z (1 + n)]) ++ map byte_of_Z (map columnType columns) ++ List.concat (map columnBytes columns) ++ rest)
      with (((pre ++ [byte_of_Z (1 + n)]) ++ map byte_of_Z (map columnType columns)) ++ List.concat (map columnBytes columns) ++ rest)
      by (rewrite <- !app_assoc; reflexivity).
    replace (byteLength pre + 1 + n)
      with (byteLength ((pre ++ [byte_of_Z (1 + n)]) ++ map byte_of_Z (map columnType columns))).
    + rewrite valueLoop_columns by exact Hwf.
      destruct (traverse (decodeColumn rowId) columns); reflexivity.
    + rewrite !byteLength_app. unfold byteLength at 2 3. rewrite !length_map.
      cbn [List.length]. lia.
  - rewrite Forall_map. eapply Forall_impl; [|exact Hwf]. intros c [Hc _]. exact Hc.
  - rewrite length_map. lia.
  - cbn [offset]. rewrite byteLength_app. reflexivity.
  - cbn [headerRemainingBytes]. rewrite length_map. exact Hndef.
Qed.

(** X13: record round trip.  For a record of fewer than 127 columns stored
    anywhere in a buffer, each column with a serial type below 128 and as
    many bytes as that type announces, [parseCellPayload] at the record's
    offset returns, in order, the value of each column decoded from that
    column's own bytes; it throws only if decoding a column does.  What
    follows the record is not read. *)
Theorem parseCellPayload_decodes_record `{Platform}
  (pre rest : list byte) (columns : list Column) (rowId : Z) :
  Z.of_nat (List.length columns) < 127 ->
  Forall wellFormedColumn columns ->
  parseCellPayload (pre ++ encodeRecord columns ++ rest) (byteLength pre) rowId
  = traverse (decodeColumn rowId) columns.
Proof. apply parseCellPayload_encodeRecord_at. Qed.

Lemma parseCellPayload_decodes_record_witness :
  @parseCellPayload asciiPlatform
    ([xaa] ++ encodeRecord [textColumn "hi"; {| columnType := 1; columnBytes := [x05] |};
                            {| columnType := 0; columnBytes := [] |}] ++ [xff])
    (byteLength [xaa]) 7
  = Normal ["hi"; "5"; "7"]%string.
Proof.
  rewrite (@parseCellPayload_decodes_record asciiPlatform [xaa] [xff]
             [textColumn "hi"; {| columnType := 1; columnBytes := [x05] |};
              {| columnType := 0; columnBytes := [] |}] 7).
  - reflexivity.
  - vm_compute. reflexivity.
  - repeat constructor; vm_compute; first [reflexivity | discriminate].
Defined.

(** ** Leaf cells *)

Lemma parseTableLeafCell_cell_at `{Platform}
  (payloadSize rowId : byte) (columns : list Column) (rest : list byte) :
  u8 payloadSize < 128 ->
  u8 rowId < 128 ->
  Z.of_nat (List.length columns) < 127 ->
  Forall wellFormedColumn columns ->
  parseTableLeafCell (payloadSize :: rowId :: encodeRecord columns ++ rest)
  = traverse (decodeColumn (u8 rowId)) columns.
Proof.
  intros Hp Hr Hcount Hwf.
  set (buffer := payloadSize :: rowId :: encodeRecord columns ++ rest).
  assert (Hfirst : readVarint (subarrayFrom buffer 0)
                   = {| value := u8 payloadSize; nextOffset := 1 |}).
  { rewrite subarrayFrom_zero. apply readVarint_one_byte. exact Hp. }
  assert (Hsecond : readVarint (subarrayFrom buffer 1)
                    = {| value := u8 rowId; nextOffset := 1 |}).
  { change (subarrayFrom buffer 1)
      with (subarrayFrom ([payloadSize] ++ rowId :: encodeRecord columns ++ rest)
              (byteLength [payloadSize])).
    rewrite subarrayFrom_app. apply readVarint_one_byte. exact Hr. }
  unfold parseTableLeafCell. cbv zeta.
  rewrite Hfirst. cbn [nextOffset]. change (0 + 1) with 1.
  rewrite Hsecond. cbn [value nextOffset].
  change (1 + 1) with (byteLength [payloadSize; rowId]).
  change buffer with ([payloadSize; rowId] ++ encodeRecord columns ++ rest).
  apply parseCellPayload_encodeRecord_at; assumption.
Qed.

(** X14: a table-leaf cell whose payload size and row id are single varint
    bytes decodes to the values of its record, with the row id as the
    fallback of the columns that store nothing.  The payload size itself is
    not used: any byte below 128 in its place gives the same values. *)
Theorem parseTableLeafCell_decodes_cell `{Platform}
  (payloadSize rowId : byte) (columns : list Column) (rest : list byte) :
  u8 payloadSize < 128 ->
  u8 rowId < 128 ->
  Z.of_nat (List.length columns) < 127 ->
  Forall wellFormedColumn columns ->
  parseTableLeafCell (payloadSize :: rowId :: encodeRecord columns ++ rest)
  = traverse (decodeColumn (u8 rowId)) columns.
Proof. apply parseTableLeafCell_cell_at. Qed.

Lemma parseTableLeafCell_decodes_cell_witness :
  @parseTableLeafCell asciiPlatform
    (x00 :: x09 :: encodeRecord [{| columnType := 0; columnBytes := [] |}; textColumn "t1"]
               ++ [xff])
  = Normal ["9"; "t1"]%string.
Proof.
  rewrite (@parseTableLeafCell_decodes_cell asciiPlatform x00 x09
             [{| columnType := 0; columnBytes := [] |}; textColumn "t1"] [xff]).
  - reflexivity.
  - vm_compute. reflexivity.
  - vm_compute. reflexivity.
  - vm_compute. reflexivity.
  - repeat constructor; vm_compute; first [reflexivity | discriminate].
Defined.

(** X15: an index-leaf cell whose payload size is a single varint byte
    decodes to the first two values of its record, with -99999 as the
    fallback row id; a field is [undefined] when the record has no such
    column, and columns after the second are decoded but dropped. *)
Theorem parseIndexLeafCell_decodes_cell `{Platform}
  (payloadSize : byte) (columns : list Column) (rest : list byte) :
  u8 payloadSize < 128 ->
  Z.of_nat (List.length columns) < 127 ->
  Forall wellFormedColumn columns ->
  parseIndexLeafCell (payloadSize :: encodeRecord columns ++ rest)
  = (values <- traverse (decodeColumn defaultRowId) columns ;;
     Normal {| indexedValue := nth_error values 0; id := nth_error values 1 |}).
Proof.
  intros Hp Hcount Hwf.
  set (buffer := payloadSize :: encodeRecord columns ++ rest).
  assert (Hfirst : readVarint (subarrayFrom buffer 0)
                   = {| value := u8 payloadSize; nextOffset := 1 |}).
  { rewrite subarrayFrom_zero. apply readVarint_one_byte. exact Hp. }
  unfold parseIndexLeafCell. cbv zeta.
  rewrite Hfirst. cbn [nextOffset].
  change (0 + 1) with (byteLength [payloadSize]).
  change buffer with ([payloadSize] ++ encodeRecord columns ++ rest).
  rewrite parseCellPayload_encodeRecord_at by assumption.
  reflexivity.
Qed.

Lemma parseIndexLeafCell_decodes_cell_witness :
  @parseIndexLeafCell asciiPlatform (x04 :: encodeRecord [textColumn "k"] ++ [xff])
  = Normal {| indexedValue := Some "k"%string; id := None |}.
Proof.
  rewrite (@parseIndexLeafCell_decodes_cell asciiPlatform x04 [textColumn "k"] [xff]).
  - reflexivity.
  - vm_compute. reflexivity.
  - vm_compute. reflexivity.
  - repeat constructor; vm_compute; first [reflexivity | discriminate].
Defined.

(** ** parse *)

(** The table names of a page whose cell pointers point to stored cells:
    the third value of each cell, in pointer order. *)
Lemma tableNamesLoop_cells `{Platform} (pageBuffer : list byte)
  (pointers : list Z) (cells : list TableLeafCell) :
  Forall2 (cellAt pageBuffer) pointers cells ->
  Forall wellFormedCell cells ->
  tableNamesLoop pageBuffer pointers []
  = (rows <- traverse decodeCell cells ;;
     Normal (map (fun row => nth_error row (PageCellData_index schemaTableName)) rows)).
Proof.
  intros Hat. induction Hat as [|pointer cell pointers cells Hcell Hat IH]; intros Hwf.
  - reflexivity.
  - inversion Hwf as [|? ? (Hp & Hr & Hcount & Hcolumns) Hrest]; subst.
    destruct Hcell as (pre & rest & Hbuffer & Hpointer).
    cbn [tableNamesLoop traverse].
    rewrite Hbuffer at 1. rewrite <- Hpointer, subarrayFrom_app.
    unfold encodeTableLeafCell. cbn [app].
    rewrite parseTableLeafCell_cell_at by assumption.
    fold (decodeCell cell).
    destruct (decodeCell cell) as [row|e]; cbn [bind]; [|reflexivity].
    rewrite tableNamesLoop_accumulator, (IH Hrest).
    destruct (traverse decodeCell cells) as [rows|e]; cbn [bind]; reflexivity.
Qed.

(** X16: end to end.  When the cell pointers read at offset 100 point to
    well-formed table-leaf cells inside the page buffer, [parse] returns
    the page size and page count of the file header, the cell count of the
    page header, and as table names the value at index 2 of each cell in
    pointer order ([undefined] for a cell with fewer than three columns);
    it throws only if decoding a column of some cell does. *)
Theorem parse_decodes_cells `{Platform} (file : FileHandle)
  (pointers : list Z) (cells : list TableLeafCell) :
  getCellPointerArray file maxByteSize = Normal pointers ->
  Forall2 (cellAt (getBufferFromOffset file (database_page_size (parseDatabaseFileHeader file)) 0))
    pointers cells ->
  Forall wellFormedCell cells ->
  parse file
  = (rows <- traverse decodeCell cells ;;
     Normal {| pageSize := database_page_size (parseDatabaseFileHeader file);
               pageCount := number_of_pages (parseDatabaseFileHeader file);
               numberOfTables := number_of_cells (parsePageHeader file maxByteSize);
               tableNames :=
                 map (fun row => nth_error row (PageCellData_index schemaTableName)) rows |}).
Proof.
  intros Hpointers Hat Hwf. unfold parse.
  rewrite Hpointers. cbn [bind].
  unfold getTableNames. cbn [pageBuffer cellPointersArray parserWith].
  rewrite (tableNamesLoop_cells _ pointers cells Hat Hwf).
  destruct (traverse decodeCell cells) as [rows|e]; cbn [bind]; reflexivity.
Qed.

Lemma parse_decodes_cells_witness :
  @parse asciiPlatform schemaFile
  = Normal {| pageSize := 4096; pageCount := 1; numberOfTables := 2;
              tableNames := [Some "t1"; Some "t2"]%string |}.
Proof.
  rewrite (@parse_decodes_cells asciiPlatform schemaFile [4024; 4060]
             [schemaRow x01 "t1" x02 "CREATE TABLE t1(x)";
              schemaRow x02 "t2" x03 "CREATE TABLE t2(y)"]).
  - vm_compute. reflexivity.
  - vm_compute. reflexivity.
  - constructor; [|constructor; [|constructor]].
    + exists (firstn 4024 schemaFile), (skipn 4060 schemaFile).
      split; vm_compute; reflexivity.
    + exists (firstn 4060 schemaFile), [].
      split; vm_compute; reflexivity.
  - repeat constructor; vm_compute; first [reflexivity | discriminate].
Defined.

Lemma parse_returns_fields_witness :
  pageSize {| pageSize := 4096; pageCount := 1; numberOfTables := 2;
              tableNames := [Some "t1"; Some "t2"]%string |}
  = database_page_size (parseDatabaseFileHeader schemaFile)
  /\ pageCount {| pageSize := 4096; pageCount := 1; numberOfTables := 2;
                  tableNames := [Some "t1"; Some "t2"]%string |}
     = number_of_pages (parseDatabaseFileHeader schemaFile)
  /\ numberOfTables {| pageSize := 4096; pageCount := 1; numberOfTables := 2;
                       tableNames := [Some "t1"; Some "t2"]%string |}
     = number_of_cells (parsePageHeader schemaFile maxByteSize)
  /\ Z.of_nat (List.length
                 (tableNames {| pageSize := 4096; pageCount := 1; numberOfTables := 2;
                                tableNames := [Some "t1"; Some "t2"]%string |}))
     = numberOfTables {| pageSize := 4096; pageCount := 1; numberOfTables := 2;
                         tableNames := [Some "t1"; Some "t2"]%string |}.
Proof.
  apply (@parse_returns_fields asciiPlatform schemaFile).
  vm_compute. reflexivity.
Defined.

(** ** Short varints and pages without cells *)

(** While at most four bytes have been read no bit has left the 32-bit
    range: the accumulated value stays below [2 ^ (7 * bytes)]. *)
Lemma readVarint_while_small (fuel : nat) :
  forall (buffer : list byte) (result index shift : Z),
    0 <= index ->
    shift = 7 * index ->
    0 <= result < 2 ^ shift ->
    snd (readVarint_while fuel buffer result index shift) <= 3 ->
    0 <= fst (readVarint_while fuel buffer result index shift)
      < 2 ^ (7 * (snd (readVarint_while fuel buffer result index shift) + 1)).
Proof.
  induction fuel as [|fuel IH]; intros buffer result index shift Hindex Hshift Hresult Hfinal;
    cbn [readVarint_while] in *.
  - cbn [fst snd] in *.
    assert (2 ^ shift <= 2 ^ (7 * (index + 1))) by (apply Z.pow_le_mono_r; lia). lia.
  - destruct ((index <? byteLength buffer) && (index <? 8)) eqn:Hguard.
    + apply andb_prop in Hguard as [_ H8]. apply Z.ltb_lt in H8.
      pose proof (byteAt_range buffer index) as Hbyte.
      pose proof (Z.mod_pos_bound (byteAt buffer index) 128 ltac:(lia)) as Hgroup.
      assert (Hpow : 2 ^ (7 * (index + 1)) = 128 * 2 ^ shift).
      { replace (7 * (index + 1)) with (7 + shift) by lia.
        rewrite Z.pow_add_r by lia. reflexivity. }
      assert (Hsmall : index <= 3).
      { destruct (byteAt buffer index <? 128); cbn [snd] in Hfinal; [lia|].
        pose proof (readVarint_while_index fuel buffer
                      (js_or result (js_shl (js_and (byteAt buffer index) 127) shift))
                      (index + 1) (shift + 7) ltac:(lia)).
        lia. }
      rewrite readVarint_accumulate in * by lia.
      destruct (byteAt buffer index <? 128); cbn [fst snd] in *.
      * rewrite Hpow. nia.
      * apply IH; try lia.
        rewrite Z.pow_add_r by lia. change (2 ^ 7) with 128. nia.
    + cbn [fst snd] in *.
      assert (2 ^ shift <= 2 ^ (7 * (index + 1))) by (apply Z.pow_le_mono_r; lia). lia.
Qed.

(** X18: a varint of at most four bytes is decoded without wrap-around: its
    value is non-negative and below 2^(7 * consumed bytes), so below 2^28.
    (From the fifth byte on the 32-bit operators can wrap and give a
    negative value.) *)
Theorem readVarint_short_is_exact (buffer : list byte) :
  nextOffset (readVarint buffer) <= 4 ->
  0 <= value (readVarint buffer) < 2 ^ (7 * nextOffset (readVarint buffer)).
Proof.
  unfold readVarint. intros Hshort.
  pose proof (readVarint_while_small 9 buffer 0 0 0 ltac:(lia) ltac:(lia)
                ltac:(change (2 ^ 0) with 1; lia)) as Hsmall.
  destruct (readVarint_while 9 buffer 0 0 0) as [result index].
  cbn [fst snd value nextOffset] in *. apply Hsmall. lia.
Qed.

Lemma readVarint_short_is_exact_witness :
  0 <= value (readVarint [xff; xff; xff; x7f; x01])
    < 2 ^ (7 * nextOffset (readVarint [xff; xff; xff; x7f; x01])).
Proof.
  apply (readVarint_short_is_exact [xff; xff; xff; x7f; x01]).
  vm_compute. discriminate.
Defined.

(** A file of at most 103 bytes has no byte of the cell count, which is
    then read as zero. *)
Lemma short_file_has_no_cells (file : FileHandle) :
  byteLength file <= 103 -> number_of_cells (parsePageHeader file maxByteSize) = 0.
Proof.
  intros Hlen. unfold parsePageHeader, maxByteSize. cbn [number_of_cells].
  unfold getUint16. rewrite !getBufferFromOffset_bytes by lia.
  ltb_false (100 + 3) (byteLength file).
  ltb_false (100 + (3 + 1)) (byteLength file).
  reflexivity.
Qed.

(** X19: when the cell count of the page header at offset 100 is zero, as
    it is for every file of at most 103 bytes and for the empty file,
    [parse] reads no cell and does not fail: it returns the page size and
    page count of the (zero-padded) file header, zero tables and no table
    name. *)
Theorem parse_page_without_cells `{Platform} (file : FileHandle) :
  number_of_cells (parsePageHeader file maxByteSize) = 0 ->
  parse file
  = Normal {| pageSize := database_page_size (parseDatabaseFileHeader file);
              pageCount := number_of_pages (parseDatabaseFileHeader file);
              numberOfTables := 0;
              tableNames := [] |}.
Proof.
  intros Hcells. unfold parse, getCellPointerArray.
  rewrite Hcells. cbn [Z.to_nat cellPointerLoop bind].
  unfold getTableNames, getNumberOfTables, getPageSize, getPageCount.
  cbn [parserWith pageBuffer cellPointersArray databaseFileHeader databasePageHeader
       tableNamesLoop bind].
  change (number_of_tables (parsePageHeader file maxByteSize))
    with (number_of_cells (parsePageHeader file maxByteSize)).
  rewrite Hcells. reflexivity.
Qed.

Lemma parse_page_without_cells_witness :
  @parse asciiPlatform (firstn 18 fileHeader4096)
  = Normal {| pageSize := database_page_size (parseDatabaseFileHeader (firstn 18 fileHeader4096));
              pageCount := number_of_pages (parseDatabaseFileHeader (firstn 18 fileHeader4096));
              numberOfTables := 0;
              tableNames := [] |}.
Proof.
  apply (@parse_page_without_cells asciiPlatform (firstn 18 fileHeader4096)).
  apply short_file_has_no_cells. vm_compute. discriminate.
Defined.

(** ** The end-to-end example *)

Lemma traverse_returns {A B : Type} (f : A -> completion B) (l : list A) :
  Forall (fun a => exists b, f a = Normal b) l -> exists bs, traverse f l = Normal bs.
Proof.
  induction 1 as [|a l [b Hb] _ [bs Hbs]]; cbn [traverse].
  - exists []. reflexivity.
  - exists (b :: bs). rewrite Hb. cbn [bind]. rewrite Hbs. reflexivity.
Qed.

Lemma traverse_nth_error {A B : Type} (f : A -> completion B) (l : list A) (bs : list B) (k : nat) :
  traverse f l = Normal bs ->
  option_map f (nth_error l k) = option_map (@Normal B) (nth_error bs k).
Proof.
  revert bs k. induction l as [|a l IH]; intros bs k Hrun; cbn [traverse] in Hrun.
  - injection Hrun as <-. destruct k; reflexivity.
  - destruct (f a) as [b|e] eqn:Hb; cbn [bind] in Hrun; [|discriminate].
    destruct (traverse f l) as [bs'|e]; cbn [bind] in Hrun; [|discriminate].
    injection Hrun as <-.
    destruct k as [|k]; cbn [nth_error option_map].
    + rewrite Hb. reflexivity.
    + apply IH. reflexivity.
Qed.

(** A column that has the bytes its serial type announces is decoded
    without an exception. *)
Lemma decodeColumn_returns `{Platform} (rowId : Z) (c : Column) :
  getSerialTypeSize (columnType c) <= byteLength (columnBytes c) ->
  exists v, decodeColumn rowId c = Normal v.
Proof.
  destruct c as [serialType bytes]. cbn [columnType columnBytes]. intros Hsize.
  unfold decodeColumn. cbn [columnType columnBytes].
  unfold parseSerialTypeValue.
  destruct ((serialType >=? 13) && (Z.rem serialType 2 =? 1)); [eexists; reflexivity|].
  destruct ((serialType >=? 12) && (Z.rem serialType 2 =? 0)); [eexists; reflexivity|].
  repeat match goal with
         | |- context [serialType =? ?k] =>
             destruct (Z.eqb_spec serialType k) as [->|?];
             [ try (unfold readIntBE; cbn [Z.add];
                    match goal with
                    | |- context [?w <=? byteLength bytes] =>
                        replace (w <=? byteLength bytes) with true
                          by (symmetry; apply Z.leb_le; exact Hsize)
                    end;
                    cbn [bind]; eexists; reflexivity)
             | ]
         end.
  - unfold readDoubleBE_toString.
    replace (8 <=? byteLength bytes) with true by (symmetry; apply Z.leb_le; exact Hsize).
    eexists; reflexivity.
  - cbn [orb]. eexists; reflexivity.
  - cbn [orb]. eexists; reflexivity.
  - cbn [orb]. eexists; reflexivity.
Qed.

Lemma decodeCell_returns `{Platform} (cell : TableLeafCell) :
  wellFormedCell cell -> exists row, decodeCell cell = Normal row.
Proof.
  intros (_ & _ & _ & Hcolumns). unfold decodeCell.
  apply traverse_returns.
  eapply Forall_impl; [|exact Hcolumns].
  intros c (_ & Hsize). apply decodeColumn_returns. lia.
Qed.

(** The layout of [twoCellFile] when the two cells fit behind the cell
    pointers: 100 bytes of file header, the 8 bytes of the page header,
    the two pointers, zeros, the two cells at the end of the page. *)
Lemma twoCellFile_layout (pageType : byte) (cell1 cell2 : list byte) :
  byteLength cell1 + byteLength cell2 <= 3984 ->
  twoCellFile pageType cell1 cell2
  = fileHeader4096
    ++ ([pageType; x00; x00; x00; x02]
        ++ u16BE (4096 - byteLength cell1 - byteLength cell2) ++ [x00])
    ++ (u16BE (4096 - byteLength cell1 - byteLength cell2) ++ u16BE (4096 - byteLength cell2))
    ++ repeat x00 (Z.to_nat (3984 - byteLength cell1 - byteLength cell2))
    ++ cell1 ++ cell2.
Proof.
  intros Hfit. unfold twoCellFile, pageFile.
  rewrite byteLength_app.
  cbn [List.length flat_map Z.of_nat Pos.of_succ_nat Pos.succ].
  change (u16BE 2) with [x00; x02].
  replace (4096 - (byteLength cell1 + byteLength cell2))
    with (4096 - byteLength cell1 - byteLength cell2) by lia.
  replace (4096 - byteLength cell2 - byteLength cell1)
    with (4096 - byteLength cell1 - byteLength cell2) by lia.
  replace (4096 - byteLength cell1 - byteLength cell2 - 108 - 2 * 2)
    with (3984 - byteLength cell1 - byteLength cell2) by lia.
  rewrite app_nil_r, <- !app_assoc. reflexivity.
Qed.

Lemma u16BE_length (n : Z) : byteLength (u16BE n) = 2.
Proof. reflexivity. Qed.

Lemma getUint16_u16BE (pre : list byte) (n : Z) (rest : list byte) :
  isU16 n -> getUint16 (pre ++ u16BE n ++ rest) (byteLength pre) = n.
Proof.
  intros Hn. unfold getUint16, u16BE. cbn [app].
  rewrite byteAt_app.
  change (pre ++ byte_of_Z (n / 256) :: byte_of_Z n :: rest)
    with (pre ++ [byte_of_Z (n / 256)] ++ byte_of_Z n :: rest).
  rewrite app_assoc.
  replace (byteLength pre + 1) with (byteLength (pre ++ [byte_of_Z (n / 256)]))
    by (rewrite byteLength_app; reflexivity).
  rewrite byteAt_app.
  apply u16_roundtrip. exact Hn.
Qed.

Section TwoCellFile.

Variables cell1 cell2 : list byte.
Hypothesis Hfit : byteLength cell1 + byteLength cell2 <= 3984.


Lemma twoCellFile_fileHeader :
  parseDatabaseFileHeader (twoCellFile x0d cell1 cell2) = parseDatabaseFileHeader fileHeader4096.
Proof.
  rewrite twoCellFile_layout by exact Hfit.
  unfold parseDatabaseFileHeader.
  rewrite getBufferFromOffset_exact by reflexivity.
  rewrite <- (app_nil_r fileHeader4096) at 24.
  rewrite getBufferFromOffset_exact by reflexivity.
  reflexivity.
Qed.

Lemma twoCellFile_length : byteLength (twoCellFile x0d cell1 cell2) = 4096.
Proof.
  pose proof (byteLength_nonneg cell1). pose proof (byteLength_nonneg cell2).
  rewrite twoCellFile_layout by exact Hfit.
  rewrite !byteLength_app, !u16BE_length.
  change (byteLength fileHeader4096) with 100.
  change (byteLength [x0d; x00; x00; x00; x02]) with 5.
  change (byteLength [x00]) with 1.
  unfold byteLength at 1. rewrite repeat_length. lia.
Qed.

Lemma twoCellFile_pageBuffer : getBufferFromOffset (twoCellFile x0d cell1 cell2) 4096 0 = (twoCellFile x0d cell1 cell2).
Proof.
  rewrite <- (app_nil_r (twoCellFile x0d cell1 cell2)) at 1.
  apply getBufferFromOffset_exact. exact twoCellFile_length.
Qed.

Lemma twoCellFile_pageHeaderBuffer :
  getBufferFromOffset (twoCellFile x0d cell1 cell2) 12 100
  = [x0d; x00; x00; x00; x02]
    ++ u16BE (4096 - byteLength cell1 - byteLength cell2) ++ [x00]
    ++ u16BE (4096 - byteLength cell1 - byteLength cell2) ++ u16BE (4096 - byteLength cell2).
Proof.
  rewrite twoCellFile_layout by exact Hfit.
  change 100 with (byteLength fileHeader4096).
  rewrite (app_assoc (_ ++ _ ++ [x00]) (_ ++ _)).
  rewrite getBufferFromOffset_at by reflexivity.
  rewrite <- !app_assoc. reflexivity.
Qed.

Lemma twoCellFile_pageHeader :
  b_tree_page_type (parsePageHeader (twoCellFile x0d cell1 cell2) 100) = 13
  /\ number_of_tables (parsePageHeader (twoCellFile x0d cell1 cell2) 100) = 2
  /\ number_of_cells (parsePageHeader (twoCellFile x0d cell1 cell2) 100) = 2
  /\ headerSize (parsePageHeader (twoCellFile x0d cell1 cell2) 100) = 8.
Proof.
  unfold parsePageHeader. rewrite twoCellFile_pageHeaderBuffer.
  repeat split.
Qed.

Lemma twoCellFile_pointers :
  getCellPointerArray (twoCellFile x0d cell1 cell2) 100
  = Normal [4096 - byteLength cell1 - byteLength cell2; 4096 - byteLength cell2].
Proof.
  pose proof (byteLength_nonneg cell1). pose proof (byteLength_nonneg cell2).
  unfold getCellPointerArray.
  destruct twoCellFile_pageHeader as (_ & _ & -> & ->).
  assert (Hbuffer : getBufferFromOffset (twoCellFile x0d cell1 cell2) (2 * 2) (100 + 8)
                    = u16BE (4096 - byteLength cell1 - byteLength cell2)
                      ++ u16BE (4096 - byteLength cell2)).
  { rewrite twoCellFile_layout by exact Hfit.
    rewrite (app_assoc fileHeader4096).
    change (100 + 8)
      with (byteLength (fileHeader4096
                        ++ [x0d; x00; x00; x00; x02]
                        ++ u16BE (4096 - byteLength cell1 - byteLength cell2) ++ [x00])).
    apply getBufferFromOffset_at. reflexivity. }
  rewrite Hbuffer.
  change (Z.to_nat 2) with 2%nat. cbn [cellPointerLoop].
  change (byteLength (u16BE (4096 - byteLength cell1 - byteLength cell2)
                      ++ u16BE (4096 - byteLength cell2))) with 4.
  cbn [Z.mul Z.add Pos.mul Pos.add Z.leb Z.compare Pos.compare Pos.compare_cont app].
  assert (Hfirst : getUint16 (u16BE (4096 - byteLength cell1 - byteLength cell2)
                               ++ u16BE (4096 - byteLength cell2)) 0
                    = 4096 - byteLength cell1 - byteLength cell2).
  { apply (getUint16_u16BE [] (4096 - byteLength cell1 - byteLength cell2)).
    unfold isU16. lia. }
  assert (Hsecond : getUint16 (u16BE (4096 - byteLength cell1 - byteLength cell2)
                                ++ u16BE (4096 - byteLength cell2)) 2
                     = 4096 - byteLength cell2).
  { rewrite <- (app_nil_r (u16BE (4096 - byteLength cell2))).
    apply (getUint16_u16BE (u16BE (4096 - byteLength cell1 - byteLength cell2))
             (4096 - byteLength cell2) []).
    unfold isU16. lia. }
  rewrite Hfirst, Hsecond. reflexivity.
Qed.

End TwoCellFile.

Lemma twoCellFile_cells (cell1 cell2 : TableLeafCell) :
  byteLength (encodeTableLeafCell cell1) + byteLength (encodeTableLeafCell cell2) <= 3984 ->
  Forall2 (cellAt (twoCellFile x0d (encodeTableLeafCell cell1) (encodeTableLeafCell cell2)))
    [4096 - byteLength (encodeTableLeafCell cell1) - byteLength (encodeTableLeafCell cell2);
     4096 - byteLength (encodeTableLeafCell cell2)]
    [cell1; cell2].
Proof.
  intros Hfit.
  pose proof (byteLength_nonneg (encodeTableLeafCell cell1)).
  pose proof (byteLength_nonneg (encodeTableLeafCell cell2)).
  rewrite twoCellFile_layout by exact Hfit.
  set (bytes1 := encodeTableLeafCell cell1) in *.
  set (bytes2 := encodeTableLeafCell cell2) in *.
  set (gap := repeat x00 (Z.to_nat (3984 - byteLength bytes1 - byteLength bytes2))).
  assert (Hgap : byteLength gap = 3984 - byteLength bytes1 - byteLength bytes2).
  { unfold gap, byteLength at 1. rewrite repeat_length. lia. }
  set (pointers := u16BE (4096 - byteLength bytes1 - byteLength bytes2)
                   ++ u16BE (4096 - byteLength bytes2)).
  set (pageHeader := [x0d; x00; x00; x00; x02]
                     ++ u16BE (4096 - byteLength bytes1 - byteLength bytes2) ++ [x00]).
  assert (Hpre : byteLength (fileHeader4096 ++ pageHeader ++ pointers ++ gap)
                 = 4096 - byteLength bytes1 - byteLength bytes2).
  { rewrite !byteLength_app, Hgap.
    change (byteLength fileHeader4096) with 100.
    change (byteLength pageHeader) with 8.
    change (byteLength pointers) with 4. lia. }
  constructor; [|constructor; [|constructor]].
  - exists (fileHeader4096 ++ pageHeader ++ pointers ++ gap), bytes2.
    split; [|exact Hpre].
    rewrite <- !app_assoc. reflexivity.
  - exists ((fileHeader4096 ++ pageHeader ++ pointers ++ gap) ++ bytes1), [].
    split.
    + rewrite app_nil_r, <- !app_assoc. reflexivity.
    + rewrite byteLength_app, Hpre. lia.
Qed.

Lemma fileHeader4096_fields :
  database_page_size (parseDatabaseFileHeader fileHeader4096) = 4096
  /\ number_of_pages (parseDatabaseFileHeader fileHeader4096) = 1.
Proof. split; vm_compute; reflexivity. Qed.

(** C1 (amended): for the synthetic file whose 100-byte header declares
    page size 4096 and page count 1 and whose leaf-table root page has 2
    cells, stored at the end of the page behind the two cell pointers, each
    a table-leaf cell whose payload size, row id, record header size and
    serial types take one varint byte and whose columns have the bytes
    their serial types announce: [parse] returns page size 4096, page count
    1, 2 tables, and as table names, in cell order, the decoded value of
    the column at index 2 of each record (the third column, tbl_name in a
    row of the schema table), [undefined] for a record with fewer than
    three columns.  Two cells that each encode a single TEXT column, "t1"
    and "t2", therefore give [undefined, undefined]. *)
Theorem parse_twoCellFile `{Platform} (cell1 cell2 : TableLeafCell) :
  wellFormedCell cell1 ->
  wellFormedCell cell2 ->
  byteLength (encodeTableLeafCell cell1) + byteLength (encodeTableLeafCell cell2) <= 3984 ->
  exists name1 name2 : option string,
    option_map (decodeColumn (u8 (cellRowId cell1))) (nth_error (cellColumns cell1) 2)
    = option_map Normal name1
    /\ option_map (decodeColumn (u8 (cellRowId cell2))) (nth_error (cellColumns cell2) 2)
       = option_map Normal name2
    /\ parse (twoCellFile x0d (encodeTableLeafCell cell1) (encodeTableLeafCell cell2))
       = Normal {| pageSize := 4096; pageCount := 1; numberOfTables := 2;
                   tableNames := [name1; name2] |}.
Proof.
  intros Hcell1 Hcell2 Hfit.
  destruct (decodeCell_returns cell1 Hcell1) as [row1 Hrow1].
  destruct (decodeCell_returns cell2 Hcell2) as [row2 Hrow2].
  exists (nth_error row1 2), (nth_error row2 2).
  split; [apply traverse_nth_error; exact Hrow1|].
  split; [apply traverse_nth_error; exact Hrow2|].
  destruct fileHeader4096_fields as [Hsize Hcount].
  destruct (twoCellFile_pageHeader _ _ Hfit) as (_ & Htables & _).
  unfold parse. change maxByteSize with 100.
  rewrite (twoCellFile_pointers _ _ Hfit). cbn [bind].
  unfold getTableNames, getPageSize, getPageCount, getNumberOfTables.
  cbn [pageBuffer cellPointersArray databaseFileHeader databasePageHeader parserWith].
  rewrite (twoCellFile_fileHeader _ _ Hfit), Hsize, Hcount.
  rewrite (twoCellFile_pageBuffer _ _ Hfit).
  rewrite (tableNamesLoop_cells _ _ [cell1; cell2] (twoCellFile_cells cell1 cell2 Hfit))
    by (constructor; [exact Hcell1 | constructor; [exact Hcell2 | constructor]]).
  cbn [traverse]. rewrite Hrow1, Hrow2. cbn [bind map].
  change maxByteSize with 100. rewrite Htables. reflexivity.
Qed.

Lemma parse_twoCellFile_witness :
  @parse asciiPlatform indexSchemaFile
  = Normal {| pageSize := 4096; pageCount := 1; numberOfTables := 2;
              tableNames := [Some "t1"; Some "t2"]%string |}
  /\ @parse asciiPlatform singleColumnFile
     = Normal {| pageSize := 4096; pageCount := 1; numberOfTables := 2;
                 tableNames := [None; None] |}.
Proof.
  split.
  - destruct (@parse_twoCellFile asciiPlatform
                (indexSchemaRow x01 "i1" "t1" x03 "CREATE INDEX i1 ON t1(x)")
                (indexSchemaRow x02 "i2" "t2" x05 "CREATE INDEX i2 ON t2(y)"))
      as (name1 & name2 & Hname1 & Hname2 & Hparse).
    + repeat constructor; vm_compute; first [reflexivity | discriminate].
    + repeat constructor; vm_compute; first [reflexivity | discriminate].
    + vm_compute. discriminate.
    + vm_compute in Hname1, Hname2.
      destruct name1 as [name1|]; [|discriminate Hname1].
      destruct name2 as [name2|]; [|discriminate Hname2].
      injection Hname1 as <-. injection Hname2 as <-.
      exact Hparse.
  - destruct (@parse_twoCellFile asciiPlatform
                (singleTextRow x01 "t1") (singleTextRow x02 "t2"))
      as (name1 & name2 & Hname1 & Hname2 & Hparse).
    + repeat constructor; vm_compute; first [reflexivity | discriminate].
    + repeat constructor; vm_compute; first [reflexivity | discriminate].
    + vm_compute. discriminate.
    + destruct name1 as [name1|]; [discriminate Hname1|].
      destruct name2 as [name2|]; [discriminate Hname2|].
      exact Hparse.
Defined.
